(** * Gmail auto-archiver: a shallow embedding of [main.py]

    The definitions follow the source file top-down:

    - [Text]      the Python string operations the program relies on
                  ([str.strip], [str.upper], [str.lower], [str.join],
                  text-mode line iteration);
    - [Store]     the decision store [inbox_saved.txt]
                  ([load_inbox_saved_ids], [save_inbox_id]);
    - [Oracle]    prompt construction and interpretation of the answer in
                  [classify_email_with_gemini];
    - [Pipeline]  [process_inbox] as a state-and-exception monad over an
                  abstract remote world (Gmail and Gemini), with a log of
                  what the program does;
    - [Demo]      small simulated services to run the program on.

    The properties come after the definitions: facts about the text
    primitives and the store, unfolding equations and invariants of the
    loop, and the claims of the specification one by one.

    Strings are sequences of code points below 256.  Whitespace is the set
    [str.isspace] accepts in that range; case mapping is modelled for the
    ASCII letters, which is all the program's literals use.  Files are
    written as on Linux, where ["\n"] is written as a single LF. *)

From stdpp Require Import gmap strings list.
From Stdlib Require Import Ascii String NArith ZArith Lia.

Local Open Scope string_scope.

(* ===================================================================== *)
(** ** Python text primitives *)
(* ===================================================================== *)

Module Text.

Definition LF : ascii := "010"%char.
Definition CR : ascii := "013"%char.

(** ["\n"] *)
Definition nl : string := String LF "".

Definition is_lf (c : ascii) : bool := Ascii.eqb c LF.
Definition is_cr (c : ascii) : bool := Ascii.eqb c CR.

(** The characters text-mode reading treats as line terminators. *)
Definition is_line_break (c : ascii) : bool := is_lf c || is_cr c.

(** [str.isspace] on one character: TAB, LF, VT, FF, CR, FS, GS, RS, US,
    SPACE, NEL and NBSP. *)
Definition is_space (c : ascii) : bool :=
  let n := N_of_ascii c in
  ((9 <=? n) && (n <=? 13) || (28 <=? n) && (n <=? 32)
   || (n =? 133) || (n =? 160))%N.

Definition upper_char (c : ascii) : ascii :=
  let n := N_of_ascii c in
  if ((97 <=? n) && (n <=? 122))%N then ascii_of_N (n - 32) else c.

Definition lower_char (c : ascii) : ascii :=
  let n := N_of_ascii c in
  if ((65 <=? n) && (n <=? 90))%N then ascii_of_N (n + 32) else c.

Fixpoint map_chars (f : ascii -> ascii) (s : string) : string :=
  match s with
  | "" => ""
  | String c s' => String (f c) (map_chars f s')
  end.

(** [s.upper()] and [s.lower()] *)
Definition upper (s : string) : string := map_chars upper_char s.
Definition lower (s : string) : string := map_chars lower_char s.

(** [s.lstrip()] *)
Fixpoint lstrip (s : string) : string :=
  match s with
  | "" => ""
  | String c s' => if is_space c then lstrip s' else s
  end.

(** [s.rstrip()] *)
Fixpoint rstrip (s : string) : string :=
  match s with
  | "" => ""
  | String c s' =>
      match rstrip s' with
      | "" => if is_space c then "" else String c ""
      | r => String c r
      end
  end.

(** [s.strip()] *)
Definition strip (s : string) : string := lstrip (rstrip s).

(** [sep.join(parts)] *)
Fixpoint join (sep : string) (parts : list string) : string :=
  match parts with
  | [] => ""
  | [p] => p
  | p :: ps => p ++ sep ++ join sep ps
  end.

Fixpoint all_chars (p : ascii -> bool) (s : string) : bool :=
  match s with
  | "" => true
  | String c s' => p c && all_chars p s'
  end.

Fixpoint last_char (s : string) : option ascii :=
  match s with
  | "" => None
  | String c s' =>
      match last_char s' with
      | None => Some c
      | Some d => Some d
      end
  end.

Definition first_char (s : string) : option ascii :=
  match s with
  | "" => None
  | String c _ => Some c
  end.

Definition opt_test (p : ascii -> bool) (o : option ascii) : bool :=
  match o with
  | None => false
  | Some c => p c
  end.

(** The string starts or ends with a whitespace character. *)
Definition outer_space (s : string) : bool :=
  opt_test is_space (first_char s) || opt_test is_space (last_char s).

(** The string contains a line terminator. *)
Definition has_line_break (s : string) : bool :=
  negb (all_chars (fun c => negb (is_line_break c)) s).

(** Universal-newline decoding, as done by [open(path, 'r')]: CR LF and a
    lone CR both read as LF.  [pending_cr] tells that the previous
    character was a CR, so that a following LF is dropped. *)
Fixpoint decode_newlines (pending_cr : bool) (s : string) : string :=
  match s with
  | "" => ""
  | String c s' =>
      if is_cr c then String LF (decode_newlines true s')
      else if is_lf c then
        if pending_cr then decode_newlines false s'
        else String LF (decode_newlines false s')
      else String c (decode_newlines false s')
  end.

(** Whether a CR is pending after reading [s]. *)
Definition pending_after (p : bool) (s : string) : bool :=
  match last_char s with
  | None => p
  | Some c => is_cr c
  end.

(** [for line in f]: the decoded text cut after each LF; every line keeps
    its terminator, the last one may lack it. *)
Fixpoint split_lines (s : string) : list string :=
  match s with
  | "" => []
  | String c s' =>
      if is_lf c then String c "" :: split_lines s'
      else match split_lines s' with
           | [] => [String c ""]
           | l :: ls => String c l :: ls
           end
  end.

(** The lines a text-mode reader yields for the raw file content. *)
Definition file_lines (raw : string) : list string :=
  split_lines (decode_newlines false raw).

(** An identifier without surrounding whitespace and without line
    terminator. *)
Definition plain_id (s : string) : bool :=
  negb (outer_space s) && negb (has_line_break s).

(** The content is empty or ends with LF. *)
Definition terminated (s : string) : bool :=
  match last_char s with
  | None => true
  | Some c => is_lf c
  end.

End Text.

(* ===================================================================== *)
(** ** The decision store, [inbox_saved.txt] *)
(* ===================================================================== *)

Module Store.
Import Text.

(** The state of the file: [None] when it does not exist. *)
Definition file := option string.

(** The stripped lines of the file, in file order: the generator
    [line.strip() for line in f]. *)
Definition stored_ids (f : file) : list string :=
  match f with
  | None => []
  | Some raw => strip <$> file_lines raw
  end.

(** [load_inbox_saved_ids()]: [FileNotFoundError] gives the empty set. *)
Definition load_inbox_saved_ids (f : file) : gset string :=
  list_to_set (stored_ids f).

(** [save_inbox_id(message_id)]: mode ['a'] creates the file when absent
    and writes at its end. *)
Definition save_inbox_id (message_id : string) (f : file) : file :=
  Some (default "" f ++ message_id ++ nl).

(** The file is absent, empty, or ends with a line feed. *)
Definition well_terminated (f : file) : bool :=
  terminated (default "" f).

End Store.

(* ===================================================================== *)
(** ** The classification oracle: prompt and verdict interpretation *)
(* ===================================================================== *)

Module Oracle.
Import Text.

(** An expression returns or raises; [e] is the text of the exception,
    as [print(f"{e}")] shows it. *)
Inductive result (A : Type) :=
| Ok (a : A)
| Raise (e : string).
Arguments Ok {A} a.
Arguments Raise {A} e.

Definition and_then {A B} (r : result A) (k : A -> result B) : result B :=
  match r with
  | Ok a => k a
  | Raise e => Raise e
  end.

Notation "'let?' x := r 'in' k" := (and_then r (fun x => k))
  (at level 10, x name, r at level 100, k at level 200, only parsing).

(** What [json.load] gives for [classified_emails.json].  A value under a
    key of a record is a string or anything else (null, a boolean, a
    number, a list, an object), which has no [upper] and which an
    f-string shows as the text [shown].  An element of the list is an
    object, that is a dictionary, or anything else.  The document itself
    is a list, an object, a string, or one of null, a boolean and a
    number. *)
Inductive value :=
| Text (s : string)
| Other (shown : string).

Inductive entry :=
| Object (fields : gmap string value)
| NotObject.

Inductive document :=
| JList (entries : list entry)
| JDict (keys : list string)
| JString (s : string)
| JAtom.

(** The dictionary [email_data] built by [process_inbox]. *)
Record email_data := {
  ed_id : string;
  ed_subject : string;
  ed_sender : string;
  ed_snippet : string
}.

(** [example[key]]: a missing key raises [KeyError], whose text is the
    key between quotes. *)
Definition item (fields : gmap string value) (key : string) : result value :=
  match fields !! key with
  | Some v => Ok v
  | None => Raise ("'" ++ key ++ "'")
  end.

(** [f"{v}"] *)
Definition format (v : value) : string :=
  match v with
  | Text s => s
  | Other shown => shown
  end.

(** [v.upper()]: only a string has it.  The text of this exception and
    of the two [TypeError]s below depends on the type of the offending
    value; the model keeps the name of the exception. *)
Definition upper_of (v : value) : result string :=
  match v with
  | Text s => Ok (upper s)
  | Other _ => Raise "AttributeError"
  end.

(** Lines 101-106 for one element of the list: the keys are read in this
    order, and subscripting anything but a dictionary with a string
    raises. *)
Definition example_parts (example : entry) : result (list string) :=
  match example with
  | NotObject => Raise "TypeError"
  | Object fields =>
      let? subject := item fields "subject" in
      let? sender := item fields "sender" in
      let? body_snippet := item fields "body_snippet" in
      let? reason := item fields "reason" in
      let? action := item fields "action" in
      let? decision := upper_of action in
      Ok [ "Subject: " ++ format subject;
           "Sender: " ++ format sender;
           "Snippet: " ++ format body_snippet;
           "Reason: " ++ format reason;
           "Decision: [" ++ decision ++ "]";
           "---" ]
  end.

(** What [for example in classified_examples] goes through: the elements
    of a list, the keys of an object and the characters of a string,
    which are strings; anything else is not iterable. *)
Definition iterate (classified_examples : document) : result (list entry) :=
  match classified_examples with
  | JList entries => Ok entries
  | JDict keys => Ok ((fun _ => NotObject) <$> keys)
  | JString s => Ok (replicate (String.length s) NotObject)
  | JAtom => Raise "TypeError"
  end.

(** Lines 100-106: the loop stops at the first element that raises. *)
Fixpoint examples_parts (entries : list entry) : result (list string) :=
  match entries with
  | [] => Ok []
  | example :: rest =>
      let? parts := example_parts example in
      let? more := examples_parts rest in
      Ok (parts ++ more)%list
  end.

(** Lines 94-98. *)
Definition opening : list string :=
  [ "You are an email classification assistant. Your task is to decide if an email should be archived or kept in the inbox.";
    "Based on the provided subject, sender, and body snippet, respond with either '[ARCHIVE]' or '[INBOX]'. Do not add any other text.";
    "Here are some examples of how emails were classified:" ].

(** Lines 109-116. *)
Definition closing (email : email_data) : list string :=
  [ nl ++ nl ++ "Likely topics for archival: TOS updates, promotional emails, newsletters, content that is otherwise not-actionable to contain information the user will ever need to reference." ++ nl;
    "Likely topics for inbox: anything that is actionable, important, or time-sensitive. This includes emails from friends and family, recent orders, bills, medical documentation, school notifications, etc." ++ nl ++ nl ++ "----" ++ nl ++ nl;
    "Now, classify the following email:";
    "Subject: " ++ ed_subject email;
    "Sender: " ++ ed_sender email;
    "Snippet: " ++ ed_snippet email;
    "Decision:" ].

(** Lines 94-116. *)
Definition prompt_parts (email : email_data) (classified_examples : document)
  : result (list string) :=
  let? entries := iterate classified_examples in
  let? examples := examples_parts entries in
  Ok (opening ++ examples ++ closing email)%list.

(** Lines 94-118: [prompt = "\n".join(prompt_parts)], or the exception of
    the loop over the examples. *)
Definition build_prompt (email : email_data) (classified_examples : document)
  : result string :=
  let? parts := prompt_parts email classified_examples in
  Ok (join nl parts).

(** The records the loop over the examples goes through without raising:
    dictionaries with the five keys whose action is a string. *)
Definition usable (example : entry) : bool :=
  match example with
  | NotObject => false
  | Object fields =>
      match fields !! "subject", fields !! "sender", fields !! "body_snippet",
            fields !! "reason", fields !! "action" with
      | Some _, Some _, Some _, Some _, Some (Text _) => true
      | _, _, _, _, _ => false
      end
  end.

(** The documents the prompt can be built from. *)
Definition readable (classified_examples : document) : bool :=
  match classified_examples with
  | JList entries => forallb usable entries
  | JDict keys => bool_decide (keys = [])
  | JString s => bool_decide (s = "")
  | JAtom => false
  end.

(** The two answers the program accepts. *)
Definition accepted : list string := ["[ARCHIVE]"; "[INBOX]"].

(** Lines 125-131: [decision = response.text.strip().upper()], returned
    when it is one of the accepted answers, [None] otherwise. *)
Definition interpret_response (text : string) : option string :=
  let decision := upper (strip text) in
  if decide (decision ∈ accepted) then Some decision else None.

(** The three branches [process_inbox] takes on the returned decision
    (lines 198, 204, 209). *)
Inductive verdict := ARCHIVE | RETAIN | UNKNOWN.

Definition verdict_of (decision : option string) : verdict :=
  if decide (decision = Some "[ARCHIVE]") then ARCHIVE
  else if decide (decision = Some "[INBOX]") then RETAIN
  else UNKNOWN.

(** Python truthiness of an optional string: [None] and [""] are false. *)
Definition truthy (o : option string) : bool :=
  match o with
  | None | Some "" => false
  | Some _ => true
  end.

End Oracle.

(* ===================================================================== *)
(** ** [process_inbox] *)
(* ===================================================================== *)

Module Pipeline.
Import Text Store Oracle.

(** The part of a [messages().get(format='metadata')] answer the program
    reads; every key may be missing. *)
Record header := { name : string; value : string }.
Record payload := { headers : option (list header) }.
Record message := { msg_payload : option payload; msg_snippet : option string }.

(** The answer of [messages().list]: the identifiers of the stubs under
    ['messages'] and the ['nextPageToken'], both optional. *)
Record list_response := {
  messages : option (list string);
  nextPageToken : option string
}.

(** [next((h['value'] for h in headers if h['name'].lower() == key), dflt)] *)
Fixpoint next_value (key : string) (hs : list header) (dflt : string) : string :=
  match hs with
  | [] => dflt
  | h :: hs' => if String.eqb (lower (name h)) key then value h
                else next_value key hs' dflt
  end.

(** Lines 178-179: [msg.get('payload', {}).get('headers', [])]. *)
Definition headers_of (msg : message) : list header :=
  match msg_payload msg with
  | Some p => default [] (headers p)
  | None => []
  end.

(** Lines 180-189. *)
Definition build_email_data (msg_id : string) (msg : message) : email_data :=
  let hs := headers_of msg in
  {| ed_id := msg_id;
     ed_subject := next_value "subject" hs "N/A";
     ed_sender := next_value "from" hs "N/A";
     ed_snippet := default "" (msg_snippet msg) |}.

(** What the program does that an observer can see; the comment gives
    the source line.  A log holds the most recent event first. *)
Inductive event :=
| ListCall (page_token : option string)   (* 159 *)
| NoMoreMessages                          (* 163 *)
| PageFound (ids : list string)           (* 166 *)
| Skipped (msg_id : string)               (* 172 *)
| GetCall (msg_id : string)               (* 176 *)
| ClassifyCall (email : email_data)       (* 195 *)
| MissingKey                              (* 88 *)
| GenerateCall (prompt : string)          (* 124 *)
| UnexpectedResponse (text : string)      (* 130 *)
| OracleError (e : string)                (* 133 *)
| ModifyCall (msg_id : string)            (* 201 *)
| Archived (msg_id : string)              (* 203 *)
| SaveCall (msg_id : string)              (* 206 *)
| NoDecision (msg_id : string)            (* 210 *)
| AllPagesDone                            (* 218 *)
| ProcessingError (e : string).           (* 222 *)

(** The events logged outside [process_message]. *)
Definition outer_event (e : event) : Prop :=
  match e with
  | ListCall _ | NoMoreMessages | PageFound _ | AllPagesDone
  | ProcessingError _ => True
  | _ => False
  end.

Section WithWorld.

(** The state of the remote services (mailbox and model), left abstract. *)
Context {W : Type}.

(** The remote operations the program performs; each may change the
    remote state and may raise. *)
Record remote := {
  messages_list : option string -> W -> result list_response * W;
  messages_get : string -> W -> result message * W;
  messages_modify : string -> W -> result unit * W;
  generate_content : string -> W -> result string * W
}.

(** What the program reads from its environment at start-up. *)
Record config := {
  GEMINI_API_KEY : option string;
  classified_examples : document
}.

(** The variables of [process_inbox] together with everything it can
    change outside itself.  The counters are Python integers. *)
Record state := {
  world : W;
  store : file;
  saved_inbox_ids : gset string;
  page_token : option string;
  processed_count : Z;
  archived_count : Z;
  inbox_count : Z;
  log : list event
}.

Definition add_log (e : event) (s : state) : state :=
  {| world := world s; store := store s;
     saved_inbox_ids := saved_inbox_ids s; page_token := page_token s;
     processed_count := processed_count s;
     archived_count := archived_count s; inbox_count := inbox_count s;
     log := e :: log s |}.

Definition with_world (w : W) (s : state) : state :=
  {| world := w; store := store s;
     saved_inbox_ids := saved_inbox_ids s; page_token := page_token s;
     processed_count := processed_count s;
     archived_count := archived_count s; inbox_count := inbox_count s;
     log := log s |}.

Definition with_page_token (t : option string) (s : state) : state :=
  {| world := world s; store := store s;
     saved_inbox_ids := saved_inbox_ids s; page_token := t;
     processed_count := processed_count s;
     archived_count := archived_count s; inbox_count := inbox_count s;
     log := log s |}.

Definition count_processed (s : state) : state :=
  {| world := world s; store := store s;
     saved_inbox_ids := saved_inbox_ids s; page_token := page_token s;
     processed_count := processed_count s + 1;
     archived_count := archived_count s; inbox_count := inbox_count s;
     log := log s |}.

Definition count_archived (s : state) : state :=
  {| world := world s; store := store s;
     saved_inbox_ids := saved_inbox_ids s; page_token := page_token s;
     processed_count := processed_count s;
     archived_count := archived_count s + 1; inbox_count := inbox_count s;
     log := log s |}.

Definition count_inbox (s : state) : state :=
  {| world := world s; store := store s;
     saved_inbox_ids := saved_inbox_ids s; page_token := page_token s;
     processed_count := processed_count s;
     archived_count := archived_count s; inbox_count := inbox_count s + 1;
     log := log s |}.

(** Lines 206-207: [save_inbox_id(msg_id)] then [saved_inbox_ids.add(msg_id)]. *)
Definition keep_in_inbox (msg_id : string) (s : state) : state :=
  {| world := world s; store := save_inbox_id msg_id (store s);
     saved_inbox_ids := {[ msg_id ]} ∪ saved_inbox_ids s;
     page_token := page_token s;
     processed_count := processed_count s;
     archived_count := archived_count s; inbox_count := inbox_count s;
     log := SaveCall msg_id :: log s |}.

(** Computations that read and write the state and may raise. *)
Definition M (A : Type) : Type := state -> result A * state.

Definition ret {A} (a : A) : M A := fun s => (Ok a, s).

Definition bind {A B} (m : M A) (k : A -> M B) : M B :=
  fun s => match m s with
           | (Ok a, s') => k a s'
           | (Raise e, s') => (Raise e, s')
           end.

Definition raise {A} (e : string) : M A := fun s => (Raise e, s).

(** [try: m except Exception as e: h e] *)
Definition try_except {A} (m : M A) (h : string -> M A) : M A :=
  fun s => match m s with
           | (Ok a, s') => (Ok a, s')
           | (Raise e, s') => h e s'
           end.

Definition modify (f : state -> state) : M unit := fun s => (Ok tt, f s).

Definition emit (e : event) : M unit := modify (add_log e).

(** A remote call: logged, then run on the remote state. *)
Definition remote_call {A} (e : event) (op : W -> result A * W) : M A :=
  fun s => let '(r, w) := op (world s) in (r, with_world w (add_log e s)).

End WithWorld.

Arguments remote : clear implicits.
Arguments state : clear implicits.
Arguments M : clear implicits.

Declare Scope pipeline_scope.
Delimit Scope pipeline_scope with pipeline.
Notation "x <- m ;; k" := (bind m (fun x => k))
  (at level 20, m at level 99, k at level 200) : pipeline_scope.
Notation "m ;; k" := (bind m (fun _ => k))
  (at level 100, k at level 200, right associativity) : pipeline_scope.

Section Program.

Context {W : Type}.
Variable gmail : remote W.
Variable cfg : config.

Local Open Scope pipeline_scope.

(** Lines 85-134.  A missing key answers [None] before anything else.
    The prompt is built outside the [try]: an exception of the loop over
    the examples leaves the function.  An exception of the model call is
    caught and answers [None].  Lines 91-92 configure the client and
    name the model without any remote call; they leave no trace here. *)
Definition classify_email_with_gemini (email : email_data) : M W (option string) :=
  if truthy (GEMINI_API_KEY cfg) then
    match build_prompt email (classified_examples cfg) with
    | Raise e => raise e
    | Ok prompt =>
        try_except
          (text <- remote_call (GenerateCall prompt) (generate_content gmail prompt) ;;
           match interpret_response text with
           | Some decision => ret (Some decision)
           | None => emit (UnexpectedResponse text) ;; ret None
           end)
          (fun e => emit (OracleError e) ;; ret None)
    end
  else
    emit MissingKey ;; ret None.

(** Lines 169-213: the body of the [for] loop for one listed identifier. *)
Definition process_message (msg_id : string) : M W unit :=
  fun s =>
    if decide (msg_id ∈ saved_inbox_ids s) then emit (Skipped msg_id) s
    else
      (msg <- remote_call (GetCall msg_id) (messages_get gmail msg_id) ;;
       let email := build_email_data msg_id msg in
       emit (ClassifyCall email) ;;
       decision <- classify_email_with_gemini email ;;
       modify count_processed ;;
       match verdict_of decision with
       | ARCHIVE =>
           remote_call (ModifyCall msg_id) (messages_modify gmail msg_id) ;;
           modify count_archived ;;
           emit (Archived msg_id)
       | RETAIN =>
           modify (keep_in_inbox msg_id) ;;
           modify count_inbox
       | UNKNOWN => emit (NoDecision msg_id)
       end) s.

(** Line 168: [for message_stub in messages]. *)
Fixpoint process_messages (ids : list string) : M W unit :=
  match ids with
  | [] => ret tt
  | msg_id :: rest => process_message msg_id ;; process_messages rest
  end.

Inductive control := Break | Continue.

(** Lines 158-219: the [try] block of one turn of the [while] loop. *)
Definition page_body : M W control :=
  fun s =>
    (results <- remote_call (ListCall (page_token s))
                            (messages_list gmail (page_token s)) ;;
     match default [] (messages results) with
     | [] => emit NoMoreMessages ;; ret Break
     | ids =>
         emit (PageFound ids) ;;
         process_messages ids ;;
         modify (with_page_token (nextPageToken results)) ;;
         if truthy (nextPageToken results) then ret Continue
         else emit AllPagesDone ;; ret Break
     end) s.

(** Lines 157-224: one turn of the loop; the handler logs and breaks. *)
Definition iteration (s : state W) : control * state W :=
  match page_body s with
  | (Ok c, s') => (c, s')
  | (Raise e, s') => (Break, add_log (ProcessingError e) s')
  end.

(** How a bounded run of the loop ended. *)
Inductive loop_exit := Broke | OutOfFuel.

(** Line 156: [while True], run for at most [fuel] turns. *)
Fixpoint while_true (fuel : nat) (s : state W) : loop_exit * state W :=
  match fuel with
  | 0 => (OutOfFuel, s)
  | S fuel' =>
      match iteration s with
      | (Break, s') => (Broke, s')
      | (Continue, s') => while_true fuel' s'
      end
  end.

(** Lines 148-154: the state when the loop is entered. *)
Definition initial_state (w : W) (f : file) : state W :=
  {| world := w; store := f;
     saved_inbox_ids := load_inbox_saved_ids f; page_token := None;
     processed_count := 0; archived_count := 0; inbox_count := 0;
     log := [] |}.

(** Lines 148-230: the run once [get_gmail_service] has returned a
    service (without one the function returns before touching anything).
    The second component is the state the summary is printed from. *)
Definition process_inbox (fuel : nat) (w : W) (f : file) : loop_exit * state W :=
  while_true fuel (initial_state w f).

End Program.

(** The store files that runs of the program can leave behind, one run
    after the other, whatever the remote services and the configuration
    of each run are. *)
Inductive later_store {W : Type} (f : file) : file -> Prop :=
| later_now : later_store f f
| later_run (gmail : remote W) (cfg : config) (fuel : nat) (w : W) (f1 : file) :
    later_store f f1 ->
    later_store f (store (process_inbox gmail cfg fuel w f1).2).

(** Lines 227-230: the four numbers the summary prints, the last one
    from the store file read again. *)
Definition summary {W} (s : state W) : list Z :=
  [ processed_count s; archived_count s; inbox_count s;
    Z.of_nat (size (load_inbox_saved_ids (store s))) ].

(** The identifiers handed to [classify_email_with_gemini]. *)
Definition classified_ids (l : list event) : list string :=
  omap (fun e => match e with ClassifyCall email => Some (ed_id email) | _ => None end) l.

(** The identifiers fetched with [messages().get]. *)
Definition fetched_ids (l : list event) : list string :=
  omap (fun e => match e with GetCall i => Some i | _ => None end) l.

(** The identifiers appended to the decision store. *)
Definition saved_ids (l : list event) : list string :=
  omap (fun e => match e with SaveCall i => Some i | _ => None end) l.

(** The identifiers whose inbox label the program asked to remove. *)
Definition modified_ids (l : list event) : list string :=
  omap (fun e => match e with ModifyCall i => Some i | _ => None end) l.

(** The identifiers whose handling came to its end: skipped, archived,
    kept, or left without decision. *)
Definition settled_ids (l : list event) : list string :=
  omap (fun e => match e with
                 | Skipped i | Archived i | SaveCall i | NoDecision i => Some i
                 | _ => None
                 end) l.

(** The page tokens the listing calls were made with. *)
Definition listing_tokens (l : list event) : list (option string) :=
  omap (fun e => match e with ListCall t => Some t | _ => None end) l.

(** The identifiers the listing calls returned. *)
Definition listed_ids (l : list event) : list string :=
  List.concat (omap (fun e => match e with PageFound ids => Some ids | _ => None end) l).

(** The ways [classify_email_with_gemini] returns [None] on the remote
    state [w]: the key is missing, the model call raises, or the
    stripped, upper-cased answer is not an accepted one. *)
Inductive no_decision {W : Type} (gmail : remote W) (cfg : config)
    (email : email_data) (w : W) : Prop :=
| missing_key :
    truthy (GEMINI_API_KEY cfg) = false ->
    no_decision gmail cfg email w
| call_failed (prompt e : string) (w' : W) :
    truthy (GEMINI_API_KEY cfg) = true ->
    build_prompt email (classified_examples cfg) = Ok prompt ->
    generate_content gmail prompt w = (Raise e, w') ->
    no_decision gmail cfg email w
| answer_rejected (prompt text : string) (w' : W) :
    truthy (GEMINI_API_KEY cfg) = true ->
    build_prompt email (classified_examples cfg) = Ok prompt ->
    generate_content gmail prompt w = (Ok text, w') ->
    upper (strip text) ∉ accepted ->
    no_decision gmail cfg email w.

(** The local variables and the store are the same in both states. *)
Definition same_locals {W} (s s' : state W) : Prop :=
  store s' = store s
  ∧ saved_inbox_ids s' = saved_inbox_ids s
  ∧ page_token s' = page_token s
  ∧ processed_count s' = processed_count s
  ∧ archived_count s' = archived_count s
  ∧ inbox_count s' = inbox_count s.

(** ** A mailbox and a model that do not change on their own *)

(** What two runs in succession need from the remote services: [inbox]
    reads the set of identifiers labelled INBOX off the remote state; a
    listing answers only such identifiers; no call adds an identifier to
    the inbox and a successful archive call removes its identifier; the
    metadata of a message and the model's answer to a prompt are the same
    at every call. *)
Record steady {W : Type} (gmail : remote W) (inbox : W -> gset string)
    (metadata : string -> message) (reply : string -> result string) : Prop := {
  listed_in_inbox : forall t w resp w',
    messages_list gmail t w = (Ok resp, w') ->
    forall i, i ∈ default [] (messages resp) -> i ∈ inbox w';
  list_keeps : forall t w r w',
    messages_list gmail t w = (r, w') -> inbox w' ⊆ inbox w;
  get_keeps : forall i w r w',
    messages_get gmail i w = (r, w') -> inbox w' ⊆ inbox w;
  get_same : forall i w msg w',
    messages_get gmail i w = (Ok msg, w') -> msg = metadata i;
  modify_keeps : forall i w r w',
    messages_modify gmail i w = (r, w') -> inbox w' ⊆ inbox w;
  modify_removes : forall i w w',
    messages_modify gmail i w = (Ok tt, w') -> i ∉ inbox w';
  generate_keeps : forall p w r w',
    generate_content gmail p w = (r, w') -> inbox w' ⊆ inbox w;
  generate_same : forall p w r w',
    generate_content gmail p w = (r, w') -> r = reply p
}.

(** What [classify_email_with_gemini] returns or raises for a message of
    such a mailbox. *)
Definition decision_for (cfg : config) (metadata : string -> message)
    (reply : string -> result string) (msg_id : string)
  : result (option string) :=
  if truthy (GEMINI_API_KEY cfg) then
    match build_prompt (build_email_data msg_id (metadata msg_id))
            (classified_examples cfg) with
    | Raise e => Raise e
    | Ok prompt =>
        match reply prompt with
        | Ok text => Ok (interpret_response text)
        | Raise _ => Ok None
        end
    end
  else Ok None.

(** The call returns something that is no accepted answer. *)
Definition undecided (r : result (option string)) : Prop :=
  ∃ decision, r = Ok decision ∧ verdict_of decision = UNKNOWN.

(** ** Invariants of the loop *)

(** The identifiers of [saved0] stay in the in-memory set, and none of
    them is fetched or classified. *)
Definition skips {W} (saved0 : gset string) (s : state W) : Prop :=
  saved0 ⊆ saved_inbox_ids s
  ∧ ∀ id, id ∈ saved0 →
      (id ∉ classified_ids (log s)) ∧ (id ∉ fetched_ids (log s)).

(** The store stays terminated and keeps what it held. *)
Definition keeps {W} (f0 : file) (s : state W) : Prop :=
  well_terminated (store s) = true
  ∧ load_inbox_saved_ids f0 ⊆ load_inbox_saved_ids (store s).

(** The appends of a run are guarded by the in-memory set: no identifier
    is appended twice, none was in the set when the run started, and the
    set holds the start set and the appended identifiers. *)
Definition appends_guarded {W} (saved0 : gset string) (s : state W) : Prop :=
  NoDup (saved_ids (log s))
  ∧ (∀ id, id ∈ saved_ids (log s) → id ∉ saved0)
  ∧ saved_inbox_ids s = list_to_set (saved_ids (log s)) ∪ saved0.

(** As long as the appended identifiers are plain, the store file stays
    terminated, holds the identifiers of [f0] followed by the appended
    ones in the order of appending, and agrees with the in-memory set. *)
Definition store_tracks {W} (f0 : file) (s : state W) : Prop :=
  Forall (fun i => plain_id i = true) (saved_ids (log s)) →
  well_terminated (store s) = true
  ∧ stored_ids (store s) = (stored_ids f0 ++ reverse (saved_ids (log s)))%list
  ∧ saved_inbox_ids s = load_inbox_saved_ids (store s).

(** First of two runs: every settled identifier is in the in-memory set,
    or out of the inbox, or without decision for good. *)
Definition settled_for_good {W} (inbox : W -> gset string)
    (decision : string -> result (option string)) (s : state W) : Prop :=
  ∀ i, i ∈ settled_ids (log s) →
    i ∈ saved_inbox_ids s ∨ i ∉ inbox (world s)
    ∨ undecided (decision i).

(** Second of two runs: nothing is archived or kept, the in-memory set is
    the loaded one, and the inbox is within the inbox [inbox1] the run
    started from. *)
Definition nothing_to_do {W} (inbox : W -> gset string)
    (saved1 inbox1 : gset string) (s : state W) : Prop :=
  archived_count s = 0%Z ∧ inbox_count s = 0%Z
  ∧ saved_inbox_ids s = saved1
  ∧ inbox (world s) ⊆ inbox1.

End Pipeline.

(* ===================================================================== *)
(** ** Simulated remote services, for running the program on examples *)
(* ===================================================================== *)

Module Demo.
Import Text Store Oracle Pipeline.

Section Services.

(** The metadata the mailbox holds for each identifier, and the model's
    answer to each prompt. *)
Variable metadata : string -> result message.
Variable reply : string -> result string.

Definition all_of (ids : list string) : list_response :=
  {| messages := match ids with [] => None | _ => Some ids end;
     nextPageToken := None |}.

Definition remove (msg_id : string) (ids : list string) : list string :=
  filter (fun i => i ≠ msg_id) ids.

(** A mailbox whose state is the list of identifiers labelled INBOX;
    a listing call answers all of them on one page. *)
Definition mailbox : remote (list string) :=
  {| messages_list := fun _ w => (Ok (all_of w), w);
     messages_get := fun msg_id w => (metadata msg_id, w);
     messages_modify := fun msg_id w => (Ok tt, remove msg_id w);
     generate_content := fun prompt w => (reply prompt, w) |}.

(** The same mailbox behind a script: as long as the script lasts, a
    listing call answers its next entry. *)
Definition scripted : remote (list (result list_response) * list string) :=
  {| messages_list := fun _ w =>
       match w.1 with
       | r :: rest => (r, (rest, w.2))
       | [] => (Ok (all_of w.2), w)
       end;
     messages_get := fun msg_id w => (metadata msg_id, w);
     messages_modify := fun msg_id w => (Ok tt, (w.1, remove msg_id w.2));
     generate_content := fun prompt w => (reply prompt, w) |}.

End Services.

(** A message with the two headers and a snippet. *)
Definition mail (subject sender snippet : string) : message :=
  {| msg_payload :=
       Some {| headers := Some [ {| name := "Subject"; value := subject |};
                                 {| name := "From"; value := sender |} ] |};
     msg_snippet := Some snippet |}.

(** Metadata given by a table; other identifiers are not found. *)
Definition metadata_of (table : list (string * message)) (msg_id : string)
  : result message :=
  match List.find (fun p => String.eqb p.1 msg_id) table with
  | Some p => Ok p.2
  | None => Raise "404 Requested entity was not found."
  end.

Definition cfg : config :=
  {| GEMINI_API_KEY := Some "key"; classified_examples := JList [] |}.




(** A model that answers by the identifier-free content of the prompt:
    the answer listed for the message whose prompt it is, [dflt] otherwise. *)
Definition reply_of (table : list (email_data * result string))
    (dflt : result string) (prompt : string) : result string :=
  match List.find (fun p => match build_prompt p.1 (classified_examples cfg) with
                            | Ok q => String.eqb q prompt
                            | Raise _ => false
                            end)
          table with
  | Some p => p.2
  | None => dflt
  end.

(** The scenario of the specification: A is kept, B is archived. *)
Definition mail_A : message := mail "Q3 report" "boss@co" "Please review.".
Definition mail_B : message := mail "50% off!" "deals@shop" "Today only.".
Definition mail_C : message := mail "Hello" "friend@home" "Long time.".

Definition mails : string -> result message :=
  metadata_of [("A", mail_A); ("B", mail_B); ("C", mail_C)].

(** The same metadata as a total function, for a mailbox in which every
    fetch succeeds. *)
Definition mail_of (msg_id : string) : message :=
  match mails msg_id with
  | Ok msg => msg
  | Raise _ => {| msg_payload := None; msg_snippet := None |}
  end.

(** A keeps, B archives, any other prompt gets an answer outside the
    accepted ones. *)
Definition model : string -> result string :=
  reply_of [ (build_email_data "A" mail_A, Ok "[INBOX]");
             (build_email_data "B" mail_B, Ok " [archive] ") ]
           (Ok "I am not sure.").

(** Every message is kept. *)
Definition keep_all (_ : string) : result string := Ok "[INBOX]".

(** Every identifier has the same bare metadata. *)
Definition bare (_ : string) : result message :=
  Ok {| msg_payload := None; msg_snippet := None |}.

End Demo.

From stdpp Require Import pretty.

Local Open Scope string_scope.

(* ===================================================================== *)
(** ** What a run of [process_inbox] leaves in its log *)
(* ===================================================================== *)

Module Ledger.
Import Text Store Oracle Pipeline.

(** The identifiers whose archive call returned (line 203). *)
Definition archived_ids (l : list event) : list string :=
  omap (fun e => match e with Archived i => Some i | _ => None end) l.

(** The identifiers left without decision (line 210). *)
Definition undecided_ids (l : list event) : list string :=
  omap (fun e => match e with NoDecision i => Some i | _ => None end) l.

(** The prompts sent to the model (line 124). *)
Definition prompts_sent (l : list event) : list string :=
  omap (fun e => match e with GenerateCall p => Some p | _ => None end) l.

(** The identifiers the program did anything with. *)
Definition touched_ids (l : list event) : list string :=
  omap (fun e => match e with
                 | Skipped i | GetCall i | ModifyCall i | Archived i
                 | SaveCall i | NoDecision i => Some i
                 | ClassifyCall email => Some (ed_id email)
                 | _ => None
                 end) l.

Definition count (l : list string) : Z := Z.of_nat (List.length l).






(** Every action follows the decision of the message. *)
Definition obeys {W} (decision : string -> result (option string))
    (s : state W) : Prop :=
  (∀ i, i ∈ modified_ids (log s) → decision i = Ok (Some "[ARCHIVE]"))
  ∧ (∀ i, i ∈ saved_ids (log s) → decision i = Ok (Some "[INBOX]"))
  ∧ (∀ i, i ∈ undecided_ids (log s) → decision i = Ok None).

(** Every identifier touched was listed. *)
Definition within_listing {W} (s : state W) : Prop :=
  ∀ i, i ∈ touched_ids (log s) → i ∈ listed_ids (log s).

(** The store is the file [f0] with the kept identifiers appended, the
    oldest first. *)
Definition appended_to {W} (f0 : file) (s : state W) : Prop :=
  store s = foldr save_inbox_id f0 (saved_ids (log s)).

(** No archive call without classification. *)
Definition archives_classified {W} (s : state W) : Prop :=
  ∀ i, i ∈ modified_ids (log s) → i ∈ classified_ids (log s).

(** [save_inbox_id] for each identifier in turn, starting without file. *)
Definition written (ids : list string) : file :=
  foldl (fun f i => save_inbox_id i f) None ids.

End Ledger.

(* ===================================================================== *)
(** ** More simulated configurations *)
(* ===================================================================== *)

Module Cases.
Import Text Store Oracle Pipeline Demo.


End Cases.

(* ===================================================================== *)
(** ** [archive_old_emails.py]: archiving everything before a date *)
(* ===================================================================== *)

Module Archiver.
Import Text Store Oracle Pipeline.

(** [f"{n:02d}"]: the decimal digits, with a zero in front when there is
    a single digit and no sign. *)
Definition format_02d (n : Z) : string :=
  if decide (0 ≤ n < 10)%Z then "0" ++ pretty n else pretty n.

(** Line 45: [f"{year}/{month:02d}/{day:02d}"]. *)
Definition date_str (year month day : Z) : string :=
  pretty year ++ "/" ++ format_02d month ++ "/" ++ format_02d day.

(** Line 46. *)
Definition query (year month day : Z) : string :=
  "in:inbox before:" ++ date_str year month day.

(** What the program does that an observer can see; the comment gives
    the source line.  A log holds the most recent event first. *)
Inductive bulk_event :=
| SearchCall (q : string) (page_token : option string)   (* 56 *)
| NoMatches                                              (* 60 *)
| BatchFound (ids : list string)                         (* 63 *)
| Queued (msg_id : string)                               (* 71 *)
| ArchiveCall (msg_id : string)                          (* 92 *)
| ArchiveDone (msg_id : string)                          (* 97 *)
| ArchiveFailed (msg_id : string) (e : string)           (* 100, 102 *)
| PagesDone                                              (* 107 *)
| SearchError (e : string).                              (* 111, 115 *)

Section WithWorld.

Context {W : Type}.

(** The service as this program uses it: a listing by query, and the
    label change of [remote]. *)
Record search_service := {
  messages_search : string -> option string -> W -> result list_response * W;
  labels : remote W
}.

(** The variables of [archive_emails_before_date] and what it can change
    outside itself. *)
Record bulk_state := {
  b_world : W;
  b_page_token : option string;
  b_archived_count : Z;
  b_processed_count : Z;
  b_log : list bulk_event
}.

Definition b_add_log (e : bulk_event) (s : bulk_state) : bulk_state :=
  {| b_world := b_world s; b_page_token := b_page_token s;
     b_archived_count := b_archived_count s;
     b_processed_count := b_processed_count s;
     b_log := e :: b_log s |}.

Definition b_with_world (w : W) (s : bulk_state) : bulk_state :=
  {| b_world := w; b_page_token := b_page_token s;
     b_archived_count := b_archived_count s;
     b_processed_count := b_processed_count s;
     b_log := b_log s |}.

Definition b_with_page_token (t : option string) (s : bulk_state) : bulk_state :=
  {| b_world := b_world s; b_page_token := t;
     b_archived_count := b_archived_count s;
     b_processed_count := b_processed_count s;
     b_log := b_log s |}.

Definition b_count_processed (s : bulk_state) : bulk_state :=
  {| b_world := b_world s; b_page_token := b_page_token s;
     b_archived_count := b_archived_count s;
     b_processed_count := b_processed_count s + 1;
     b_log := b_log s |}.

Definition b_count_archived (s : bulk_state) : bulk_state :=
  {| b_world := b_world s; b_page_token := b_page_token s;
     b_archived_count := b_archived_count s + 1;
     b_processed_count := b_processed_count s;
     b_log := b_log s |}.

Variable service : search_service.

(** Lines 69-73: the identifiers of the page are queued and counted. *)
Definition queue (ids : list string) (s : bulk_state) : bulk_state :=
  foldl (fun s msg_id => b_count_processed (b_add_log (Queued msg_id) s)) s ids.

(** Lines 91-102: one archive call; an exception is logged and dropped. *)
Definition archive_one (s : bulk_state) (msg_id : string) : bulk_state :=
  let '(r, w) := messages_modify (labels service) msg_id (b_world s) in
  let s1 := b_with_world w (b_add_log (ArchiveCall msg_id) s) in
  match r with
  | Ok _ => b_count_archived (b_add_log (ArchiveDone msg_id) s1)
  | Raise e => b_add_log (ArchiveFailed msg_id e) s1
  end.

(** Line 90: [for msg_id_to_archive in ids_to_archive_this_batch]. *)
Definition archive_batch (ids : list string) (s : bulk_state) : bulk_state :=
  foldl archive_one s ids.

(** Lines 54-116: one turn of the [while] loop.  Within the [try] block
    only the listing call can raise; both handlers log and break. *)
Definition bulk_iteration (q : string) (s : bulk_state) : control * bulk_state :=
  let '(r, w) := messages_search service q (b_page_token s) (b_world s) in
  let s1 := b_with_world w (b_add_log (SearchCall q (b_page_token s)) s) in
  match r with
  | Raise e => (Break, b_add_log (SearchError e) s1)
  | Ok results =>
      match default [] (messages results) with
      | [] => (Break, b_add_log NoMatches s1)
      | ids =>
          let s2 := queue ids (b_add_log (BatchFound ids) s1) in
          let s3 := archive_batch ids s2 in
          let s4 := b_with_page_token (nextPageToken results) s3 in
          if truthy (nextPageToken results) then (Continue, s4)
          else (Break, b_add_log PagesDone s4)
      end
  end.

(** Line 53: [while True], run for at most [fuel] turns. *)
Fixpoint bulk_loop (fuel : nat) (q : string) (s : bulk_state)
  : loop_exit * bulk_state :=
  match fuel with
  | 0 => (OutOfFuel, s)
  | S fuel' =>
      match bulk_iteration q s with
      | (Break, s') => (Broke, s')
      | (Continue, s') => bulk_loop fuel' q s'
      end
  end.

(** Lines 49-51. *)
Definition bulk_initial (w : W) : bulk_state :=
  {| b_world := w; b_page_token := None;
     b_archived_count := 0; b_processed_count := 0; b_log := [] |}.

(** Lines 41-120. *)
Definition archive_emails_before_date (fuel : nat) (year month day : Z) (w : W)
  : loop_exit * bulk_state :=
  bulk_loop fuel (query year month day) (bulk_initial w).

End WithWorld.

Arguments search_service : clear implicits.
Arguments bulk_state : clear implicits.

(** Lines 122-133: without service nothing is done; with one, everything
    before May 1st of the current year is archived. *)
Definition main {W} (fuel : nat) (gmail_service : option (search_service W))
    (current_year : Z) (w : W) : option (loop_exit * bulk_state W) :=
  match gmail_service with
  | None => None
  | Some service => Some (archive_emails_before_date service fuel current_year 5 1 w)
  end.

(** The identifiers of the archive calls, of those that returned and of
    those that raised, and the identifiers the listing calls returned. *)
Definition attempted (l : list bulk_event) : list string :=
  omap (fun e => match e with ArchiveCall i => Some i | _ => None end) l.
Definition returned (l : list bulk_event) : list string :=
  omap (fun e => match e with ArchiveDone i => Some i | _ => None end) l.
Definition failed (l : list bulk_event) : list string :=
  omap (fun e => match e with ArchiveFailed i _ => Some i | _ => None end) l.
Definition found (l : list bulk_event) : list string :=
  List.concat (omap (fun e => match e with BatchFound ids => Some (reverse ids) | _ => None end) l).

(** At a turn of the loop: every identifier found was queued, counted and
    given one archive call, in the order of the listing; the archived
    counter counts the calls that returned. *)
Definition settled {W} (s : bulk_state W) : Prop :=
  attempted (b_log s) = found (b_log s)
  ∧ b_processed_count s = Ledger.count (found (b_log s))
  ∧ b_archived_count s = Ledger.count (returned (b_log s))
  ∧ (Ledger.count (returned (b_log s)) + Ledger.count (failed (b_log s))
     = Ledger.count (attempted (b_log s)))%Z.

(** A mailbox in which the archive call fails for the identifiers of
    [broken] and a search answers the whole inbox. *)
Definition flaky (broken : list string) : search_service (list string) :=
  {| messages_search := fun _ _ w => (Ok (Demo.all_of w), w);
     labels :=
       {| messages_list := fun _ w => (Ok (Demo.all_of w), w);
          messages_get := fun i w => (Demo.bare i, w);
          messages_modify := fun i w =>
            if decide (i ∈ broken) then (Raise "500 Internal error", w)
            else (Ok tt, Demo.remove i w);
          generate_content := fun _ w => (Raise "no model", w) |} |}.

End Archiver.

(* ===================================================================== *)
(** ** The example file [classified_emails.json] *)
(* ===================================================================== *)

Module Corpus.
Import Text Store Oracle Pipeline.

(** The file, modelled by what [json.load] makes of it: it does not
    exist, it does not decode, or it decodes to a document, of whatever
    shape.  The text of the file is not modelled: the file that
    [json.dump] writes for a document is taken to decode to that
    document. *)
Inductive corpus_file :=
| Missing
| Undecodable
| Holding (content : document).

(** [main.py], lines 57-67: [FileNotFoundError] and [JSONDecodeError]
    both give the empty list. *)
Definition load_classified_emails (f : corpus_file) : document :=
  match f with
  | Holding content => content
  | Missing | Undecodable => JList []
  end.

(** The configuration [process_inbox] starts from. *)
Definition config_from (key : option string) (f : corpus_file) : config :=
  {| GEMINI_API_KEY := key; classified_examples := load_classified_emails f |}.

End Corpus.

(* ===================================================================== *)
(** ** [training_data.py]: labelling examples by hand *)
(* ===================================================================== *)

Module Trainer.
Import Text Store Oracle Pipeline Corpus.

(** [s[:n]] *)
Definition prefix_of (n : nat) (s : string) : string := String.substring 0 n s.

(** [needle in hay] *)
Definition contains (needle hay : string) : bool :=
  match String.index 0 needle hay with
  | Some _ => true
  | None => false
  end.

(** An email as [fetch_emails] returns it. *)
Record fetched_email := {
  fe_id : string;
  fe_subject : string;
  fe_sender : string;
  fe_body : string
}.

(** Lines 57-61. *)
Definition mock_emails : list fetched_email :=
  [ {| fe_id := "mock_id_1"; fe_subject := "Test Email 1: Important Update";
       fe_sender := "test1@example.com";
       fe_body := "This is the body of test email 1. It contains important information." |};
    {| fe_id := "mock_id_2"; fe_subject := "Test Email 2: Your Weekly Newsletter";
       fe_sender := "newsletter@example.com";
       fe_body := "Hello! Here is your weekly newsletter with all the latest updates and news articles." |};
    {| fe_id := "mock_id_3"; fe_subject := "FWD: Funny Cat Video";
       fe_sender := "friend@example.com";
       fe_body := "You have to see this hilarious cat video I found!" |} ].

(** [next((h['value'] for h in headers if h['name'] == key), dflt)]: the
    name is compared as it is. *)
Fixpoint next_exact (key : string) (hs : list header) (dflt : string) : string :=
  match hs with
  | [] => dflt
  | h :: hs' => if String.eqb (name h) key then value h
                else next_exact key hs' dflt
  end.

(** Lines 76-93. *)
Definition read_email (msg_id : string) (msg : message) : fetched_email :=
  {| fe_id := msg_id;
     fe_subject := next_exact "Subject" (headers_of msg) "[No Subject]";
     fe_sender := next_exact "From" (headers_of msg) "[No Sender]";
     fe_body := default "" (msg_snippet msg) |}.

Section WithWorld.

Context {W : Type}.

(** The service as this program uses it: a listing of the unread inbox
    messages, at most [count] of them, and the fetch of [remote]. *)
Record unread_service := {
  messages_unread : nat -> W -> result list_response * W;
  reader : remote W
}.

(** Lines 73-93: the [for] loop; an exception of a fetch leaves it. *)
Fixpoint fetch_each (service : unread_service) (ids : list string) (w : W)
  : result (list fetched_email) * W :=
  match ids with
  | [] => (Ok [], w)
  | msg_id :: rest =>
      match messages_get (reader service) msg_id w with
      | (Raise e, w1) => (Raise e, w1)
      | (Ok msg, w1) =>
          match fetch_each service rest w1 with
          | (Ok emails, w2) => (Ok (read_email msg_id msg :: emails), w2)
          | (Raise e, w2) => (Raise e, w2)
          end
      end
  end.

(** Lines 52-97: without service the mock emails; with one, the emails of
    the listing, or nothing at all when any call raised. *)
Definition fetch_emails (service : option unread_service) (count : nat) (w : W)
  : list fetched_email * W :=
  match service with
  | None => (mock_emails, w)
  | Some svc =>
      match messages_unread svc count w with
      | (Raise _, w1) => ([], w1)
      | (Ok results, w1) =>
          match fetch_each svc (default [] (messages results)) w1 with
          | (Ok emails, w2) => (emails, w2)
          | (Raise _, w2) => ([], w2)
          end
      end
  end.

End WithWorld.

Arguments unread_service : clear implicits.

(** Lines 107-109: the body as [display_email] shows it. *)
Definition body_preview (body : string) : string :=
  if (200 <? String.length body)%nat then prefix_of 197 body ++ "..."
  else body.

(** [training_data.py], lines 114-123. *)
Definition load_classified_emails (f : corpus_file) : document :=
  match f with
  | Holding content => content
  | Missing | Undecodable => JList []
  end.

(** The dictionary [email_data_to_save] of [main]. *)
Record labelled := {
  original_subject : string;
  original_sender : string;
  original_body : string;
  reason : string;
  action : string;
  lb_id : string
}.

(** The dictionary [data_to_save]: five keys, each with a string. *)
Record example := {
  ex_subject : string;
  ex_sender : string;
  ex_body_snippet : string;
  ex_reason : string;
  ex_action : string
}.

Definition entry_of (e : example) : entry :=
  Object (<["subject" := Text (ex_subject e)]>
          (<["sender" := Text (ex_sender e)]>
           (<["body_snippet" := Text (ex_body_snippet e)]>
            (<["reason" := Text (ex_reason e)]>
             (<["action" := Text (ex_action e)]> ∅))))).

(** Lines 128-134. *)
Definition data_to_save (email_data : labelled) : example :=
  {| ex_subject := original_subject email_data;
     ex_sender := original_sender email_data;
     ex_body_snippet := prefix_of 100 (original_body email_data);
     ex_reason := reason email_data;
     ex_action := action email_data |}.

(** Lines 126-138: the record is appended to the list the caller holds,
    and the whole list is written over the file.  Only a list has
    [append]: on any other document line 135 raises [AttributeError] and
    nothing is written.  Returns the list and the file. *)
Definition save_classified_email (email_data : labelled)
    (classified_emails : document) : result (document * corpus_file) :=
  match classified_emails with
  | JList entries =>
      let extended := JList (entries ++ [entry_of (data_to_save email_data)]) in
      Ok (extended, Holding extended)
  | _ => Raise "AttributeError"
  end.

(** Lines 178-191: the two questions are asked again until the answer to
    the second, stripped and lower-cased, is [a] or [i]; the lines the
    user types are [inputs], and the end of input ends the program
    ([None]).  Returns the reason, the action letter and the lines left. *)
Fixpoint ask (inputs : list string) : option (string * string * list string) :=
  match inputs with
  | reason :: answer :: rest =>
      let action_input := lower (strip answer) in
      if decide (action_input ∈ ["a"; "i"]) then Some (reason, action_input, rest)
      else ask rest
  | _ => None
  end.

(** What the session does about archiving (lines 207-213). *)
Inductive archive_note :=
| ArchiveEmail (email_id : string)    (* 209: [archive_email] is called *)
| MockWouldArchive (email_id : string) (* 211 *)
| KeptInInbox.                         (* 213 *)

(** Lines 194-213 for one email. *)
Definition label_email (email : fetched_email) (reason action_input : string)
  : labelled * archive_note :=
  let action := if String.eqb action_input "a" then "archive" else "inbox" in
  ({| original_subject := fe_subject email;
      original_sender := fe_sender email;
      original_body := fe_body email;
      reason := reason; action := action; lb_id := fe_id email |},
   if String.eqb action "archive" && negb (String.eqb (fe_id email) "") then
     if negb (contains "mock_id" (fe_id email)) then ArchiveEmail (fe_id email)
     else MockWouldArchive (fe_id email)
   else KeptInInbox).

(** The state of a session: the loaded document with the examples added
    so far, the file, the notes so far (most recent first), the lines not
    yet read, and the exception that ended the program, if one did. *)
Record session := {
  history : document;
  corpus : corpus_file;
  notes : list archive_note;
  unread_lines : list string;
  failure : option string
}.

(** Lines 175-215: the [for] loop over the fetched emails; the end of
    input ends the whole program, and so does the exception of
    [save_classified_email], which nothing catches. *)
Fixpoint label_all (emails : list fetched_email) (s : session) : session :=
  match emails with
  | [] => s
  | email :: rest =>
      match ask (unread_lines s) with
      | None => {| history := history s; corpus := corpus s;
                   notes := notes s; unread_lines := [];
                   failure := failure s |}
      | Some (reason, action_input, remaining) =>
          let '(data, note) := label_email email reason action_input in
          match save_classified_email data (history s) with
          | Raise e => {| history := history s; corpus := corpus s;
                          notes := notes s; unread_lines := remaining;
                          failure := Some e |}
          | Ok (extended, file) =>
              label_all rest {| history := extended; corpus := file;
                                notes := note :: notes s;
                                unread_lines := remaining;
                                failure := failure s |}
          end
      end
  end.

(** A document with examples appended to it, when it is a list. *)
Definition is_list (d : document) : bool :=
  match d with
  | JList _ => true
  | _ => false
  end.

Definition extended (d : document) (added : list example) : document :=
  match d with
  | JList entries => JList (entries ++ (entry_of <$> added))
  | _ => d
  end.

(** Lines 161-217, from the fetched emails on. *)
Definition label_session (emails : list fetched_email) (f : corpus_file)
    (inputs : list string) : session :=
  label_all emails {| history := load_classified_emails f; corpus := f;
                      notes := []; unread_lines := inputs; failure := None |}.

(** Lines 161-217. *)
Definition main {W} (service : option (unread_service W)) (f : corpus_file)
    (inputs : list string) (w : W) : session * W :=
  let '(emails, w1) := fetch_emails service 50 w in
  (label_session emails f inputs, w1).

End Trainer.

(* ===================================================================== *)
(** ** Simulated services for the two other programs *)
(* ===================================================================== *)

Module Cases2.
Import Text Store Oracle Pipeline Demo Trainer.

(** The unread messages are the first [count] of the mailbox. *)
Definition unread_box (metadata : string -> result message)
  : unread_service (list string) :=
  {| messages_unread := fun count w => (Ok (all_of (take count w)), w);
     reader := mailbox metadata keep_all |}.

(** A message whose subject header is written in lower case. *)
Definition lower_case_mail : message :=
  {| msg_payload :=
       Some {| headers := Some [ {| name := "subject"; value := "Invoice 42" |};
                                 {| name := "From"; value := "billing@shop" |} ] |};
     msg_snippet := Some "Your invoice is attached." |}.

End Cases2.

(* ===================================================================== *)
(** * Properties of the text primitives *)
(* ===================================================================== *)

Import Text Store Oracle Pipeline.

#[local] Arguments String.append !_ _ / : simpl nomatch.
#[local] Set Warnings "-clear-no-such-hyp".

Section TextFacts.

Implicit Types (s a b : string) (c : ascii) (p : bool).

Lemma app_empty_r s : s ++ "" = s.
Proof. induction s as [|c s IH]; simpl; [done | by rewrite IH]. Qed.

Lemma app_assoc' a b s : (a ++ b) ++ s = a ++ (b ++ s).
Proof. induction a as [|c a IH]; simpl; [done | by rewrite IH]. Qed.

Lemma last_char_none s : last_char s = None → s = "".
Proof.
  destruct s as [|c s]; [done |]. simpl. by destruct (last_char s).
Qed.

Lemma last_char_snoc s c : last_char (s ++ String c "") = Some c.
Proof.
  induction s as [|d s IH]; simpl; [done |].
  by rewrite IH.
Qed.

Lemma last_char_app s b : b ≠ "" → last_char (s ++ b) = last_char b.
Proof.
  intros Hb. induction s as [|d s IH]; simpl; [done |].
  rewrite IH. destruct b as [|e b]; [done |]. simpl.
  by destruct (last_char b).
Qed.

Lemma is_space_LF : is_space LF = true.
Proof. reflexivity. Qed.

Lemma rstrip_snoc_space s c :
  is_space c = true → rstrip (s ++ String c "") = rstrip s.
Proof.
  intros Hc. induction s as [|d s IH]; simpl.
  - by rewrite Hc.
  - by rewrite IH.
Qed.

Lemma rstrip_fixed s :
  opt_test is_space (last_char s) = false → rstrip s = s.
Proof.
  induction s as [|d s IH]; simpl; [done |].
  destruct (last_char s) as [e|] eqn:Hl; simpl; intros H.
  - rewrite (IH H). destruct s; [done | done].
  - apply last_char_none in Hl as ->. simpl. by rewrite H.
Qed.

Lemma lstrip_fixed s :
  opt_test is_space (first_char s) = false → lstrip s = s.
Proof. destruct s as [|d s]; simpl; [done |]. by intros ->. Qed.

Lemma strip_fixed s : outer_space s = false → strip s = s.
Proof.
  unfold outer_space, strip. intros [H1 H2]%orb_false_iff.
  by rewrite rstrip_fixed, lstrip_fixed.
Qed.

(** A line as [save_inbox_id] writes it strips back to the identifier. *)
Lemma strip_written_line s : outer_space s = false → strip (s ++ nl) = s.
Proof.
  intros H. unfold strip, nl.
  rewrite rstrip_snoc_space by apply is_space_LF.
  by apply strip_fixed.
Qed.

Lemma is_lf_not_cr c : is_lf c = true → is_cr c = false.
Proof.
  unfold is_lf, is_cr. intros ->%Ascii.eqb_eq. reflexivity.
Qed.

Lemma decode_newlines_app p a b :
  decode_newlines p (a ++ b) =
  decode_newlines p a ++ decode_newlines (pending_after p a) b.
Proof.
  revert p. induction a as [|c a IH]; intros p; simpl; [done |].
  assert (Hp : ∀ q, pending_after q a = pending_after p (String c a) ∨ a = "").
  { intros q. unfold pending_after. simpl.
    destruct (last_char a) eqn:Hl; [by left |].
    right. by apply last_char_none. }
  destruct (is_cr c) eqn:Hcr.
  - simpl. rewrite IH. f_equal. f_equal.
    destruct (Hp true) as [-> | ->]; [done |].
    unfold pending_after. simpl. by rewrite Hcr.
  - destruct (is_lf c) eqn:Hlf.
    + assert (Hq : pending_after false a = pending_after p (String c a)).
      { destruct (Hp false) as [-> | ->]; [done |].
        unfold pending_after. simpl. by rewrite Hcr. }
      destruct p; simpl; rewrite IH, Hq; done.
    + simpl. rewrite IH. f_equal. f_equal.
      destruct (Hp false) as [-> | ->]; [done |].
      unfold pending_after. simpl. by rewrite Hcr.
Qed.

Lemma decode_newlines_plain p s :
  has_line_break s = false → decode_newlines p s = s.
Proof.
  unfold has_line_break. intros H%negb_false_iff.
  revert p. induction s as [|c s IH]; intros p; simpl in *; [done |].
  apply andb_true_iff in H as [Hc Hs].
  apply negb_true_iff, orb_false_iff in Hc as [Hlf Hcr].
  rewrite Hcr, Hlf. by rewrite IH.
Qed.

Lemma terminated_cons_lf s : terminated s = true → terminated (String LF s) = true.
Proof.
  unfold terminated. simpl. by destruct (last_char s).
Qed.

Lemma terminated_cons s c :
  s ≠ "" → terminated s = true → terminated (String c s) = true.
Proof.
  unfold terminated. simpl. destruct (last_char s) eqn:Hl; [done |].
  by apply last_char_none in Hl.
Qed.

Lemma terminated_tail s c :
  s ≠ "" → terminated (String c s) = true → terminated s = true.
Proof.
  unfold terminated. simpl. destruct (last_char s) eqn:Hl; [done |].
  by apply last_char_none in Hl.
Qed.

Lemma terminated_single c : terminated (String c "") = true → is_lf c = true.
Proof. done. Qed.

Lemma terminated_decode p s :
  terminated s = true →
  terminated (decode_newlines p s) = true
  ∧ (s ≠ "" → p = false → decode_newlines p s ≠ "").
Proof.
  revert p. induction s as [|c s IH]; intros p Ht; [done |].
  destruct (decide (s = "")) as [-> | Hne].
  - apply terminated_single in Ht. simpl.
    rewrite (is_lf_not_cr _ Ht), Ht. by destruct p.
  - apply terminated_tail in Ht; [|done]. simpl.
    destruct (is_cr c).
    + split; [|done]. apply terminated_cons_lf. by apply IH.
    + destruct (is_lf c).
      * destruct p.
        -- split; [by apply IH | done].
        -- split; [|done]. apply terminated_cons_lf. by apply IH.
      * split; [|done]. destruct (IH false Ht) as [H1 H2].
        apply terminated_cons; auto.
Qed.

Lemma split_lines_app a b :
  terminated a = true → split_lines (a ++ b) = (split_lines a ++ split_lines b)%list.
Proof.
  induction a as [|c a IH]; intros Ht; [done |].
  destruct (decide (a = "")) as [-> | Hne].
  - apply terminated_single in Ht. simpl. by rewrite Ht.
  - apply terminated_tail in Ht; [|done]. simpl.
    rewrite (IH Ht). destruct (is_lf c); [done |].
    destruct a as [|d a]; [done |].
    assert (split_lines (String d a) ≠ []) as Hnil.
    { simpl. destruct (is_lf d); [done |]. by destruct (split_lines a). }
    destruct (split_lines (String d a)); [done | done].
Qed.

Lemma split_lines_single s :
  has_line_break s = false → split_lines (s ++ nl) = [s ++ nl].
Proof.
  unfold has_line_break. intros H%negb_false_iff.
  induction s as [|c s IH]; simpl in *; [done |].
  apply andb_true_iff in H as [Hc Hs].
  apply negb_true_iff, orb_false_iff in Hc as [Hlf Hcr].
  rewrite Hlf, (IH Hs). done.
Qed.

Lemma pending_after_terminated a :
  terminated a = true → pending_after false a = false.
Proof.
  unfold terminated, pending_after. destruct (last_char a); [|done].
  apply is_lf_not_cr.
Qed.

Lemma file_lines_app a b :
  terminated a = true → file_lines (a ++ b) = (file_lines a ++ file_lines b)%list.
Proof.
  intros Ht. unfold file_lines.
  rewrite decode_newlines_app, pending_after_terminated by done.
  apply split_lines_app. by apply terminated_decode.
Qed.

Lemma file_lines_written s :
  has_line_break s = false → file_lines (s ++ nl) = [s ++ nl].
Proof.
  intros H. unfold file_lines.
  rewrite decode_newlines_app, (decode_newlines_plain _ _ H).
  replace (decode_newlines _ nl) with nl.
  - by apply split_lines_single.
  - unfold pending_after. destruct (last_char s) as [c|] eqn:Hl; [|done].
    assert (is_cr c = false) as ->; [|done].
    unfold has_line_break in H. apply negb_false_iff in H.
    clear -H Hl. revert c Hl. induction s as [|d s IH]; intros c Hl; [done |].
    simpl in *. apply andb_true_iff in H as [Hd Hs].
    destruct (last_char s) as [e|].
    + apply IH; [done | congruence].
    + injection Hl as <-. by apply negb_true_iff, orb_false_iff in Hd as [_ ?].
Qed.

End TextFacts.

(* ===================================================================== *)
(** * Properties of the decision store *)
(* ===================================================================== *)

Section StoreFacts.

Implicit Types (f : file) (id : string).

Lemma save_terminated id f : well_terminated (save_inbox_id id f) = true.
Proof.
  unfold well_terminated, save_inbox_id, terminated. simpl.
  rewrite last_char_app by (destruct id; done).
  unfold nl. by rewrite last_char_snoc.
Qed.

Lemma stored_ids_save id f :
  well_terminated f = true →
  stored_ids (save_inbox_id id f)
  = (stored_ids f ++ (strip <$> file_lines (id ++ nl)))%list.
Proof.
  intros Ht. unfold save_inbox_id, stored_ids at 1.
  rewrite file_lines_app by exact Ht.
  rewrite fmap_app. by destruct f.
Qed.

Lemma plain_id_spec id :
  plain_id id = true ↔ outer_space id = false ∧ has_line_break id = false.
Proof.
  unfold plain_id. rewrite andb_true_iff, !negb_true_iff. done.
Qed.

Lemma stored_ids_save_plain id f :
  well_terminated f = true → plain_id id = true →
  stored_ids (save_inbox_id id f) = (stored_ids f ++ [id])%list.
Proof.
  intros Ht [Ho Hl]%plain_id_spec. rewrite stored_ids_save by done.
  rewrite file_lines_written by done. simpl.
  by rewrite strip_written_line.
Qed.

Lemma load_save_mono id f :
  well_terminated f = true →
  load_inbox_saved_ids f ⊆ load_inbox_saved_ids (save_inbox_id id f).
Proof.
  intros Ht. unfold load_inbox_saved_ids.
  rewrite stored_ids_save by done. rewrite list_to_set_app_L. set_solver.
Qed.

Lemma load_save_plain id f :
  well_terminated f = true → plain_id id = true →
  load_inbox_saved_ids (save_inbox_id id f) = load_inbox_saved_ids f ∪ {[ id ]}.
Proof.
  intros Ht Hp. unfold load_inbox_saved_ids.
  rewrite stored_ids_save_plain by done.
  rewrite list_to_set_app_L. simpl. set_solver.
Qed.

End StoreFacts.

(* ===================================================================== *)
(** * Properties of [process_inbox] *)
(* ===================================================================== *)

Lemma verdict_of_None : verdict_of None = UNKNOWN.
Proof. reflexivity. Qed.

Lemma verdict_of_archive d :
  verdict_of d = ARCHIVE ↔ d = Some "[ARCHIVE]".
Proof.
  unfold verdict_of.
  destruct (decide (d = Some "[ARCHIVE]")); [done |].
  destruct (decide (d = Some "[INBOX]")); split; intros; congruence.
Qed.

Lemma verdict_of_retain d :
  verdict_of d = RETAIN ↔ d = Some "[INBOX]".
Proof.
  unfold verdict_of.
  destruct (decide (d = Some "[ARCHIVE]")) as [-> |]; [done |].
  destruct (decide (d = Some "[INBOX]")); split; intros; congruence.
Qed.

(** ** The prompt and the examples file *)

Section PromptFacts.

Lemma example_parts_usable example :
  usable example = true ↔ ∃ parts, example_parts example = Ok parts.
Proof.
  destruct example as [fields|]; simpl; [|split; [done | by intros [? ?]]].
  unfold item.
  repeat (case_match; simpl; try (split; [done | by intros [? ?]])).
  split; eauto.
Qed.

Lemma examples_parts_usable entries :
  forallb usable entries = true ↔ ∃ parts, examples_parts entries = Ok parts.
Proof.
  induction entries as [|example rest IH]; simpl; [split; eauto |].
  rewrite andb_true_iff, IH, example_parts_usable. split.
  - intros [[parts ->] [more ->]]. simpl. eauto.
  - destruct (example_parts example) as [parts|e]; simpl; [|by intros [? ?]].
    destruct (examples_parts rest) as [more|e]; simpl; [|by intros [? ?]].
    eauto.
Qed.

Lemma examples_parts_strings n :
  n = 0%nat ↔ ∃ parts, examples_parts (replicate n NotObject) = Ok parts.
Proof.
  destruct n as [|n]; simpl; [split; eauto |].
  split; [done | by intros [? ?]].
Qed.

(** The prompt can be built exactly from the readable documents,
    whatever the message is. *)
Lemma build_prompt_readable email classified_examples :
  readable classified_examples = true
  ↔ ∃ prompt, build_prompt email classified_examples = Ok prompt.
Proof.
  unfold build_prompt, prompt_parts.
  assert (∀ entries,
            (∃ parts, examples_parts entries = Ok parts)
            ↔ ∃ prompt,
                (let? parts :=
                   (let? examples := examples_parts entries in
                    Ok (opening ++ examples ++ closing email)%list) in
                 Ok (join nl parts)) = Ok prompt) as Hparts.
  { intros entries. destruct (examples_parts entries) as [parts|e]; simpl.
    - split; eauto.
    - split; by intros [? ?]. }
  destruct classified_examples as [entries|keys|s|]; simpl.
  - by rewrite examples_parts_usable, Hparts.
  - rewrite <- Hparts, bool_decide_eq_true.
    destruct keys as [|k keys]; simpl; [split; eauto |].
    split; [done | by intros [? ?]].
  - rewrite <- Hparts, bool_decide_eq_true.
    destruct s as [|c s]; simpl; [split; eauto |].
    split; [done | by intros [? ?]].
  - split; [done | by intros [? ?]].
Qed.

(** An exception of the loop over the examples does not depend on the
    message. *)
Lemma build_prompt_failure email email' classified_examples e :
  build_prompt email classified_examples = Raise e →
  build_prompt email' classified_examples = Raise e.
Proof.
  unfold build_prompt, prompt_parts.
  destruct (iterate classified_examples) as [entries|e0]; simpl; [|done].
  by destruct (examples_parts entries) as [parts|e0].
Qed.


End PromptFacts.

Section PipelineFacts.

Context {W : Type}.
Variable gmail : remote W.
Variable cfg : config.

Implicit Types (s : state W) (id : string).

Lemma classify_unfold email s :
  classify_email_with_gemini gmail cfg email s =
  if truthy (GEMINI_API_KEY cfg) then
    match build_prompt email (classified_examples cfg) with
    | Raise e => (Raise e, s)
    | Ok prompt =>
        match generate_content gmail prompt (world s) with
        | (Ok text, w) =>
            let s1 := with_world w (add_log (GenerateCall prompt) s) in
            match interpret_response text with
            | Some d => (Ok (Some d), s1)
            | None => (Ok None, add_log (UnexpectedResponse text) s1)
            end
        | (Raise e, w) =>
            (Ok None,
             add_log (OracleError e)
               (with_world w (add_log (GenerateCall prompt) s)))
        end
    end
  else (Ok None, add_log MissingKey s).
Proof.
  unfold classify_email_with_gemini.
  destruct (truthy _); [|done].
  destruct (build_prompt _ _) as [prompt|e]; [|done].
  unfold try_except, bind, remote_call. simpl.
  destruct (generate_content _ _ _) as [[text|e] w]; [|done].
  by destruct (interpret_response text).
Qed.

Lemma process_message_unfold id s :
  process_message gmail cfg id s =
  if decide (id ∈ saved_inbox_ids s) then (Ok tt, add_log (Skipped id) s)
  else
    match messages_get gmail id (world s) with
    | (Raise e, w) => (Raise e, with_world w (add_log (GetCall id) s))
    | (Ok msg, w) =>
        let email := build_email_data id msg in
        match classify_email_with_gemini gmail cfg email
                (add_log (ClassifyCall email)
                   (with_world w (add_log (GetCall id) s))) with
        | (Raise e, s1) => (Raise e, s1)
        | (Ok decision, s1) =>
            let s2 := count_processed s1 in
            match verdict_of decision with
            | ARCHIVE =>
                match messages_modify gmail id (world s2) with
                | (Ok _, w') =>
                    (Ok tt,
                     add_log (Archived id)
                       (count_archived
                          (with_world w' (add_log (ModifyCall id) s2))))
                | (Raise e, w') =>
                    (Raise e, with_world w' (add_log (ModifyCall id) s2))
                end
            | RETAIN => (Ok tt, count_inbox (keep_in_inbox id s2))
            | UNKNOWN => (Ok tt, add_log (NoDecision id) s2)
            end
        end
    end.
Proof.
  unfold process_message. case_decide; [done |].
  unfold bind, remote_call, emit, modify. simpl.
  destruct (messages_get _ _ _) as [[msg|e] w]; [|done]. simpl.
  destruct (classify_email_with_gemini _ _ _ _) as [[d|e] s1]; [|done].
  destruct (verdict_of d); try done. simpl.
  by destruct (messages_modify _ _ _) as [[[]|e] w'].
Qed.

Lemma while_true_unfold fuel s :
  while_true gmail cfg (S fuel) s =
  match iteration gmail cfg s with
  | (Break, s') => (Broke, s')
  | (Continue, s') => while_true gmail cfg fuel s'
  end.
Proof. reflexivity. Qed.

Lemma page_body_unfold s :
  page_body gmail cfg s =
  match messages_list gmail (page_token s) (world s) with
  | (Raise e, w) =>
      (Raise e, with_world w (add_log (ListCall (page_token s)) s))
  | (Ok resp, w) =>
      let s1 := with_world w (add_log (ListCall (page_token s)) s) in
      match default [] (messages resp) with
      | [] => (Ok Break, add_log NoMoreMessages s1)
      | ids =>
          match process_messages gmail cfg ids (add_log (PageFound ids) s1) with
          | (Raise e, s2) => (Raise e, s2)
          | (Ok _, s2) =>
              let s3 := with_page_token (nextPageToken resp) s2 in
              if truthy (nextPageToken resp) then (Ok Continue, s3)
              else (Ok Break, add_log AllPagesDone s3)
          end
      end
  end.
Proof.
  unfold page_body, bind, remote_call, emit, modify, ret.
  destruct (messages_list _ _ _) as [[resp|e] w]; [|done].
  cbv beta iota zeta.
  destruct (default [] (messages resp)) as [|id ids]; [done |].
  destruct (process_messages _ _ _ _) as [[[]|e] s2]; [|done].
  by destruct (truthy _).
Qed.

End PipelineFacts.

(** Projections of explicitly built states. *)
Ltac state_simpl :=
  cbn [world store saved_inbox_ids page_token processed_count archived_count
       inbox_count log add_log with_world with_page_token count_processed
       count_archived count_inbox keep_in_inbox] in *.

(** Case analysis of one [process_message] run recorded in [H]. *)
Ltac message_cases H :=
  rewrite process_message_unfold in H;
  repeat first
    [ rewrite classify_unfold in H
    | rewrite verdict_of_None in H
    | match type of H with
      | context [decide (?x ∈ ?X)] => destruct (decide (x ∈ X))
      | context [messages_get ?g ?x ?y] =>
          let Hget := fresh "Hget" in
          destruct (messages_get g x y) as [[?msg|?e] ?w] eqn:Hget
      | context [truthy ?k] =>
          let Hkey := fresh "Hkey" in destruct (truthy k) eqn:Hkey
      | context [build_prompt ?x ?y] =>
          let Hprompt := fresh "Hprompt" in
          destruct (build_prompt x y) as [?prompt|?e] eqn:Hprompt
      | context [generate_content ?g ?x ?y] =>
          let Hgen := fresh "Hgen" in
          destruct (generate_content g x y) as [[?text|?e] ?w] eqn:Hgen
      | context [interpret_response ?x] =>
          let Hint := fresh "Hint" in
          destruct (interpret_response x) as [?d|] eqn:Hint
      | context [verdict_of ?x] =>
          let Hv := fresh "Hv" in destruct (verdict_of x) eqn:Hv
      | context [messages_modify ?g ?x ?y] =>
          let Hmod := fresh "Hmod" in
          destruct (messages_modify g x y) as [[[]|?e] ?w] eqn:Hmod
      end
    | progress cbv beta iota zeta in H ];
  simplify_eq H; intros; subst.

(** Case analysis of one [classify_email_with_gemini] run recorded in
    [H]. *)
Ltac classify_cases H :=
  rewrite classify_unfold in H;
  destruct (truthy _) eqn:?Hkey;
    [destruct (build_prompt _ _) as [?prompt|?e] eqn:?Hprompt;
       [destruct (generate_content _ _ _) as [[?text|?e] ?w] eqn:?Hgen;
          [destruct (interpret_response _) as [?d|] eqn:?Hint |] |] |];
  cbv zeta in H; simplify_eq H; intros; subst.

(** ** Lifting an invariant of one message to the whole loop *)

Section Lifting.

Context {W : Type}.
Variable gmail : remote W.
Variable cfg : config.

(** [I] is the invariant, [Q] what is known of every listed identifier. *)
Variable I : state W → Prop.
Variable Q : string → Prop.

Hypothesis I_log : ∀ e s, outer_event e → I s → I (add_log e s).
Hypothesis I_token : ∀ t s, I s → I (with_page_token t s).
Hypothesis I_list : ∀ t s r w,
  I s → messages_list gmail t (world s) = (r, w) →
  I (with_world w s)
  ∧ ∀ resp, r = Ok resp → Forall Q (default [] (messages resp)).
Hypothesis I_message : ∀ id s r s',
  Q id → I s → process_message gmail cfg id s = (r, s') → I s'.

Lemma process_messages_inv ids s r s' :
  Forall Q ids → I s → process_messages gmail cfg ids s = (r, s') → I s'.
Proof.
  revert s. induction ids as [|id ids IH]; intros s HQ Hs Hrun.
  - simpl in Hrun. unfold ret in Hrun. by simplify_eq.
  - apply Forall_cons in HQ as [Hid HQ].
    simpl in Hrun. unfold bind in Hrun.
    destruct (process_message gmail cfg id s) as [[[]|e] s1] eqn:Hstep.
    + eapply IH; [done | | done]. eapply I_message; done.
    + simplify_eq. eapply I_message; done.
Qed.

Lemma page_body_inv s r s' :
  I s → page_body gmail cfg s = (r, s') → I s'.
Proof.
  intros Hs. rewrite page_body_unfold.
  destruct (messages_list gmail (page_token s) (world s))
    as [[resp|e] w] eqn:Hlist.
  - destruct (I_list (page_token s) (add_log (ListCall (page_token s)) s)
                (Ok resp) w) as [Hw HQ]; [by apply I_log | done |].
    specialize (HQ resp eq_refl). cbv zeta.
    destruct (default [] (messages resp)) as [|id ids] eqn:Hids.
    + intros ?; simplify_eq. by apply I_log.
    + destruct (process_messages gmail cfg (id :: ids) _)
        as [[[]|e] s1] eqn:Hrun; intros Heq.
      * assert (I s1) as Hs1.
        { eapply process_messages_inv; [done | | done]. by apply I_log. }
        destruct (truthy (nextPageToken resp)); simplify_eq.
        -- by apply I_token.
        -- by apply I_log, I_token.
      * simplify_eq. eapply process_messages_inv; [done | | done].
        by apply I_log.
  - intros ?; simplify_eq.
    apply (I_list (page_token s) (add_log (ListCall (page_token s)) s)
             (Raise e) w); [by apply I_log | done].
Qed.

Lemma iteration_inv s : I s → I (iteration gmail cfg s).2.
Proof.
  intros Hs. unfold iteration.
  destruct (page_body gmail cfg s) as [[c|e] s'] eqn:Hbody; simpl.
  - eapply page_body_inv; done.
  - apply I_log; [done |]. eapply page_body_inv; done.
Qed.

Lemma while_true_inv fuel s : I s → I (while_true gmail cfg fuel s).2.
Proof.
  revert s. induction fuel as [|fuel IH]; intros s Hs; [done |].
  simpl. pose proof (iteration_inv s Hs) as Hit.
  destruct (iteration gmail cfg s) as [[] s']; [done |].
  by apply IH.
Qed.

End Lifting.

(** ** Identifiers of the decision store are skipped *)

Section Skipping.

Context {W : Type}.
Variable gmail : remote W.
Variable cfg : config.

Lemma skips_message saved0 id s r s' :
  skips saved0 s → process_message gmail cfg id s = (r, s') → skips saved0 s'.
Proof.
  intros [Hsub Hlog] Hrun.
  assert (id ∉ saved_inbox_ids s → id ∉ saved0) as Hfresh by set_solver.
  message_cases Hrun; (split; [simpl; set_solver |]);
    intros i Hi; destruct (Hlog i Hi) as [Hc Hf]; simpl;
    rewrite ?not_elem_of_cons; repeat split; try done;
    intros ->; by apply Hfresh.
Qed.

Lemma skips_while saved0 fuel s :
  skips saved0 s → skips saved0 (while_true gmail cfg fuel s).2.
Proof.
  apply (while_true_inv gmail cfg (skips saved0) (λ _, True)).
  - intros e s0 He Hs. by destruct e.
  - done.
  - intros t s0 r w Hs _. split; [done |].
    intros resp _. apply Forall_forall. done.
  - intros id s0 r s' _. apply skips_message.
Qed.

Lemma keeps_message f0 id s r s' :
  keeps f0 s → process_message gmail cfg id s = (r, s') → keeps f0 s'.
Proof.
  intros [Ht Hsub] Hrun.
  message_cases Hrun; try done. simpl. split.
  - apply save_terminated.
  - etrans; [exact Hsub |]. by apply load_save_mono.
Qed.

Lemma keeps_while f0 fuel s :
  keeps f0 s → keeps f0 (while_true gmail cfg fuel s).2.
Proof.
  apply (while_true_inv gmail cfg (keeps f0) (λ _, True)).
  - intros e s0 He Hs. by destruct e.
  - done.
  - intros t s0 r w Hs _. split; [done |].
    intros resp _. apply Forall_forall. done.
  - intros id s0 r s' _. apply keeps_message.
Qed.

End Skipping.

Lemma later_store_keeps {W : Type} (f f' : file) :
  well_terminated f = true → later_store (W:=W) f f' →
  well_terminated f' = true
  ∧ load_inbox_saved_ids f ⊆ load_inbox_saved_ids f'.
Proof.
  intros Ht Hlater. induction Hlater as [|gmail cfg fuel w f1 Hl IH]; [done |].
  destruct IH as [Ht1 Hsub1].
  destruct (keeps_while gmail cfg f1 fuel (initial_state w f1)) as [Ht2 Hsub2].
  { done. }
  split; [exact Ht2 |]. etrans; [exact Hsub1 | exact Hsub2].
Qed.

(* ===================================================================== *)
(** * The program on examples *)
(* ===================================================================== *)

Section Examples.
Import Demo.

(** The scenario of the specification: one run keeps A and archives B. *)
Example scenario_A_B :
  let s := (process_inbox (mailbox mails model) cfg 3 ["A"; "B"] None).2 in
  processed_count s = 2%Z ∧ archived_count s = 1%Z ∧ inbox_count s = 1%Z
  ∧ store s = Some ("A" ++ nl) ∧ world s = ["A"].
Proof. vm_compute. done. Qed.

End Examples.

(* ===================================================================== *)
(** * The claims *)
(* ===================================================================== *)

Import Demo.

(** Membership in a concrete set or list, by evaluation. *)
Ltac by_evaluation := apply (bool_decide_unpack _); vm_compute; exact I.

(** ** C1: identifiers of the decision store are never classified again *)

(** C1, as amended.  An identifier that [load_inbox_saved_ids] finds in the
    store when a run starts is neither fetched nor handed to
    [classify_email_with_gemini] during that run, however long the run
    lasts and whatever the remote services answer.  When the store file
    is absent, empty or ends with a line feed, the same holds for every
    later run, whatever the runs in between appended. *)
Theorem stored_ids_are_skipped {W : Type}
    (gmail : remote W) (cfg : config) (fuel : nat) (w : W)
    (f : file) (id : string) :
  id ∈ load_inbox_saved_ids f →
  let untouched (l : list event) :=
    (id ∉ classified_ids l) ∧ (id ∉ fetched_ids l) in
  untouched (log (process_inbox gmail cfg fuel w f).2)
  ∧ (well_terminated f = true →
     ∀ f', later_store (W:=W) f f' →
     ∀ (gmail' : remote W) (cfg' : config) (fuel' : nat) (w' : W),
       untouched (log (process_inbox gmail' cfg' fuel' w' f').2)).
Proof.
  intros Hid untouched.
  assert (Hrun : ∀ (g : remote W) c n (w0 : W) f0, id ∈ load_inbox_saved_ids f0 →
            untouched (log (process_inbox g c n w0 f0).2)).
  { intros g c n w0 f0 Hin.
    destruct (skips_while g c (load_inbox_saved_ids f0) n (initial_state w0 f0))
      as [_ Hlog].
    - split; [done |]. intros i _. simpl. split; apply not_elem_of_nil.
    - by apply Hlog. }
  split; [by apply Hrun |].
  intros Ht f' Hlater g c n w0. apply Hrun.
  destruct (later_store_keeps f f' Ht Hlater) as [_ Hsub].
  by apply Hsub.
Qed.

(** A store holding A: the run over A and B fetches and classifies B only. *)
Lemma stored_ids_are_skipped_witness :
  let l := log (process_inbox (mailbox mails model) Demo.cfg 3 ["A"; "B"]
                  (Some ("A" ++ nl))).2 in
  "A" ∈ load_inbox_saved_ids (Some ("A" ++ nl))
  ∧ (("A" ∉ classified_ids l) ∧ ("A" ∉ fetched_ids l)).
Proof.
  assert (H : "A" ∈ load_inbox_saved_ids (Some ("A" ++ nl))) by by_evaluation.
  split; [exact H |].
  exact (proj1 (stored_ids_are_skipped (mailbox mails model) Demo.cfg 3
                  ["A"; "B"] (Some ("A" ++ nl)) "A" H)).
Defined.

(** C1 as stated fails across runs when the file lacks its final line
    feed: the store holds [a]; the first run keeps [b] and appends it to
    the unfinished line, which now reads [ab]; the second run no longer
    finds [a] and classifies it. *)
Lemma stored_id_lost_by_merged_line :
  let f := Some "a" in
  let s1 := (process_inbox (mailbox bare keep_all) Demo.cfg 2 ["b"; "a"] f).2 in
  let s2 := (process_inbox (mailbox bare keep_all) Demo.cfg 2 (world s1) (store s1)).2 in
  "a" ∈ load_inbox_saved_ids f
  ∧ store s1 = Some ("ab" ++ nl)
  ∧ "a" ∈ classified_ids (log s2).
Proof.
  cbv zeta. split; [by_evaluation |]. split; [by vm_compute |]. by_evaluation.
Qed.

(** ** C3: interpretation of the model's answer *)

Lemma interpret_response_accepted text d :
  interpret_response text = Some d ↔ d = upper (strip text) ∧ d ∈ accepted.
Proof.
  unfold interpret_response. destruct (decide _) as [Hin | Hout].
  - split; [by intros [= <-] | by intros [-> _]].
  - split; [done | by intros [-> ?]].
Qed.

(** C3, as amended.  The answer is stripped and upper-cased and then
    compared with ["[ARCHIVE]"] and ["[INBOX]"], brackets included:
    ["[archive]"] and [" [Archive] "] give ARCHIVE, the same words without
    brackets give UNKNOWN, and so does every answer whose normal form is
    neither of the two accepted strings. *)
Theorem verdict_of_response :
  verdict_of (interpret_response "[archive]") = ARCHIVE
  ∧ verdict_of (interpret_response " [Archive] ") = ARCHIVE
  ∧ verdict_of (interpret_response "[inbox]") = RETAIN
  ∧ verdict_of (interpret_response "ARCHIVE") = UNKNOWN
  ∧ verdict_of (interpret_response " Archive ") = UNKNOWN
  ∧ ∀ text,
      verdict_of (interpret_response text) =
      if decide (upper (strip text) = "[ARCHIVE]") then ARCHIVE
      else if decide (upper (strip text) = "[INBOX]") then RETAIN
      else UNKNOWN.
Proof.
  repeat (split; [by vm_compute |]).
  intros text. unfold interpret_response, accepted.
  destruct (decide (upper (strip text) = "[ARCHIVE]")) as [-> | Ha]; [done |].
  destruct (decide (upper (strip text) = "[INBOX]")) as [-> | Hi]; [done |].
  destruct (decide _) as [Hin | _]; [|done].
  apply elem_of_cons in Hin as [? | Hin]; [done |].
  apply elem_of_cons in Hin as [? | Hin]; [done |].
  by apply elem_of_nil in Hin.
Qed.

(** C3 as stated fails on the answers without brackets. *)
Lemma unbracketed_archive_is_unknown :
  verdict_of (interpret_response "ARCHIVE") ≠ ARCHIVE
  ∧ verdict_of (interpret_response " Archive ") ≠ ARCHIVE.
Proof. split; by vm_compute. Qed.

(** ** C10: appending to the store and loading it *)

(** C10, as amended.  When the store file is absent, empty or ends with a
    line feed, appending an identifier without surrounding whitespace and
    without line terminator and loading the store gives the identifiers
    stored before and that one. *)
Theorem load_after_save (f : file) (message_id : string) :
  well_terminated f = true →
  outer_space message_id = false →
  has_line_break message_id = false →
  load_inbox_saved_ids (save_inbox_id message_id f)
  = load_inbox_saved_ids f ∪ {[ message_id ]}.
Proof.
  intros Ht Ho Hl. apply load_save_plain; [done |].
  by apply plain_id_spec.
Qed.

Lemma load_after_save_witness :
  load_inbox_saved_ids (save_inbox_id "18c2f" (Some ("17a0b" ++ nl)))
  = load_inbox_saved_ids (Some ("17a0b" ++ nl)) ∪ {[ "18c2f" ]}.
Proof.
  apply load_after_save; reflexivity.
Defined.

(** C10 as stated fails on a file without final line feed: the appended
    identifier merges with the last line. *)
Lemma save_merges_unfinished_line :
  outer_space "def" = false ∧ has_line_break "def" = false
  ∧ load_inbox_saved_ids (save_inbox_id "def" (Some "abc")) = {[ "abcdef" ]}
  ∧ load_inbox_saved_ids (save_inbox_id "def" (Some "abc"))
    ≠ load_inbox_saved_ids (Some "abc") ∪ {[ "def" ]}.
Proof.
  split; [done |]. split; [done |].
  assert (H : load_inbox_saved_ids (save_inbox_id "def" (Some "abc"))
              = {[ "abcdef" ]}) by by vm_compute.
  split; [exact H |]. rewrite H. intros Heq.
  assert ("def" ∈ ({[ "abcdef" ]} : gset string)) as Hin.
  { rewrite Heq. set_solver. }
  by apply elem_of_singleton in Hin.
Qed.

(** ** C6: a listed identifier of the in-memory set *)

(** C6, as amended.  A listed identifier that is in the in-memory set is
    skipped: the program logs the skip and does nothing else, so the
    message is not fetched, classified, archived or appended again, and no
    counter changes; [inbox_count] counts only the messages kept in this
    run. *)
Theorem saved_id_is_skipped {W : Type} (gmail : remote W) (cfg : config)
    (msg_id : string) (s : state W) :
  msg_id ∈ saved_inbox_ids s →
  process_message gmail cfg msg_id s = (Ok tt, add_log (Skipped msg_id) s)
  ∧ inbox_count (add_log (Skipped msg_id) s) = inbox_count s
  ∧ processed_count (add_log (Skipped msg_id) s) = processed_count s
  ∧ archived_count (add_log (Skipped msg_id) s) = archived_count s.
Proof.
  intros Hin. rewrite process_message_unfold.
  destruct (decide (msg_id ∈ saved_inbox_ids s)); done.
Qed.

Lemma saved_id_is_skipped_witness :
  process_message (mailbox mails model) Demo.cfg "A"
    (initial_state ["A"] (Some ("A" ++ nl)))
  = (Ok tt, add_log (Skipped "A") (initial_state ["A"] (Some ("A" ++ nl)))).
Proof.
  refine (proj1 (saved_id_is_skipped (mailbox mails model) Demo.cfg "A"
                   (initial_state ["A"] (Some ("A" ++ nl))) _)).
  by_evaluation.
Defined.

(** C6 as stated fails: the store holds A and the inbox lists A; the run
    skips A and ends with [inbox_count] 0. *)
Lemma skipped_id_is_not_counted :
  let s0 := initial_state ["A"] (Some ("A" ++ nl)) in
  let s := (process_inbox (mailbox mails model) Demo.cfg 3 ["A"]
              (Some ("A" ++ nl))).2 in
  "A" ∈ saved_inbox_ids s0
  ∧ Skipped "A" ∈ log s
  ∧ inbox_count s = 0%Z.
Proof.
  cbv zeta. split; [by_evaluation |]. split; [|by vm_compute].
  vm_compute. apply list_elem_of_In. simpl. tauto.
Qed.

(** ** C5: a message without verdict is left alone *)

Section Classification.

Context {W : Type}.
Variable gmail : remote W.
Variable cfg : config.

(** [classify_email_with_gemini] raises only while it builds the prompt,
    and then changes nothing; it touches neither the store nor the local
    variables, and asks for no mailbox change. *)
Lemma classify_frame email (s : state W) r s' :
  classify_email_with_gemini gmail cfg email s = (r, s') →
  (∀ e, r = Raise e →
     truthy (GEMINI_API_KEY cfg) = true
     ∧ build_prompt email (classified_examples cfg) = Raise e
     ∧ s' = s)
  ∧ same_locals s s'
  ∧ modified_ids (log s') = modified_ids (log s)
  ∧ saved_ids (log s') = saved_ids (log s)
  ∧ fetched_ids (log s') = fetched_ids (log s)
  ∧ classified_ids (log s') = classified_ids (log s).
Proof.
  intros Hrun. classify_cases Hrun;
    unfold same_locals; repeat split; try done; intros; by simplify_eq.
Qed.

(** It returns when the key is missing and when the prompt can be
    built. *)
Lemma classify_returns email (s : state W) r s' :
  classify_email_with_gemini gmail cfg email s = (r, s') →
  truthy (GEMINI_API_KEY cfg) = false
  ∨ (∃ prompt, build_prompt email (classified_examples cfg) = Ok prompt) →
  ∃ decision, r = Ok decision.
Proof.
  intros Hrun Hok. classify_cases Hrun; eauto.
  destruct Hok as [? | [? ?]]; congruence.
Qed.

(** A returned decision is one of the two accepted answers. *)
Lemma classify_decision email (s : state W) d s' :
  classify_email_with_gemini gmail cfg email s = (Ok (Some d), s') →
  d ∈ accepted.
Proof.
  intros Hrun. classify_cases Hrun.
  by apply interpret_response_accepted in Hint as [_ ?].
Qed.

(** Without decision the answer is [None] and the failure is logged. *)
Lemma classify_no_decision email (s : state W) :
  no_decision gmail cfg email (world s) →
  ∃ s', classify_email_with_gemini gmail cfg email s = (Ok None, s')
        ∧ ∃ e, e :: log s = log s' ∨ (∃ p, e :: GenerateCall p :: log s = log s').
Proof.
  rewrite classify_unfold.
  intros [Hkey | prompt e w' Hkey Hprompt Hgen
               | prompt text w' Hkey Hprompt Hgen Hout]; rewrite Hkey.
  - eexists. split; [done |]. exists MissingKey. by left.
  - rewrite Hprompt, Hgen. eexists. split; [done |].
    exists (OracleError e). right. by eexists.
  - rewrite Hprompt, Hgen. cbv zeta.
    assert (interpret_response text = None) as ->.
    { unfold interpret_response. by destruct (decide _). }
    eexists. split; [done |]. exists (UnexpectedResponse text). right. by eexists.
Qed.

End Classification.

(** C5, as amended.  When [classify_email_with_gemini] returns [None] for
    a fetched message (missing key, failing model call, or an answer
    outside the accepted ones), the loop body completes normally: no
    label change is requested, the store and the in-memory set are
    unchanged, and the message is counted as processed but neither as
    archived nor as kept.  Of the four numbers of the summary only the
    first changes; the program keeps no count of the messages left
    without decision. *)
Theorem undecided_message_untouched {W : Type} (gmail : remote W)
    (cfg : config) (msg_id : string) (s : state W) (msg : message) (w1 : W) :
  msg_id ∉ saved_inbox_ids s →
  messages_get gmail msg_id (world s) = (Ok msg, w1) →
  no_decision gmail cfg (build_email_data msg_id msg) w1 →
  ∃ s', process_message gmail cfg msg_id s = (Ok tt, s')
    ∧ NoDecision msg_id ∈ log s'
    ∧ modified_ids (log s') = modified_ids (log s)
    ∧ saved_ids (log s') = saved_ids (log s)
    ∧ store s' = store s
    ∧ saved_inbox_ids s' = saved_inbox_ids s
    ∧ processed_count s' = (processed_count s + 1)%Z
    ∧ archived_count s' = archived_count s
    ∧ inbox_count s' = inbox_count s
    ∧ summary s' = [ (processed_count s + 1)%Z; archived_count s; inbox_count s;
                     Z.of_nat (size (load_inbox_saved_ids (store s))) ].
Proof.
  intros Hnew Hget Hno.
  rewrite process_message_unfold.
  destruct (decide (msg_id ∈ saved_inbox_ids s)); [done |].
  rewrite Hget. cbv zeta.
  set (email := build_email_data msg_id msg) in *.
  set (s1 := add_log (ClassifyCall email) _).
  destruct (classify_no_decision gmail cfg email s1 Hno) as (s2 & Hrun & _).
  rewrite Hrun, verdict_of_None.
  apply classify_frame in Hrun
    as (_ & (Hst & Hsv & _ & Hp & Ha & Hi) & Hmod & Hsav & _).
  eexists. split; [done |]. unfold summary. simpl.
  rewrite Hmod, Hsav, Hst, Hsv, Hp, Ha, Hi. simpl.
  repeat split; try done. apply list_elem_of_here.
Qed.

(** C is fetched and the model's answer is not an accepted one. *)
Lemma undecided_message_untouched_witness :
  ∃ s', process_message (mailbox mails model) Demo.cfg "C"
          (initial_state ["C"] None) = (Ok tt, s')
    ∧ NoDecision "C" ∈ log s'
    ∧ modified_ids (log s') = []
    ∧ saved_ids (log s') = []
    ∧ store s' = None
    ∧ saved_inbox_ids s' = ∅
    ∧ processed_count s' = 1%Z
    ∧ archived_count s' = 0%Z
    ∧ inbox_count s' = 0%Z
    ∧ summary s' = [1; 0; 0; 0]%Z.
Proof.
  refine (undecided_message_untouched (mailbox mails model) Demo.cfg "C"
            (initial_state ["C"] None) mail_C ["C"] _ _ _).
  - apply not_elem_of_empty.
  - reflexivity.
  - eapply (answer_rejected _ _ _ _ _ "I am not sure." ["C"]);
      [reflexivity | by vm_compute | by vm_compute | by_evaluation].
Defined.

(** C5 as stated fails: the summary has no undecided count.  The run
    over C alone leaves C without decision and the run over B alone
    archives B.  The summaries read 1, 0, 0, 0 and 1, 1, 0, 0: no number
    of the summary is 1 after the first run and 0 after the second, as a
    count of the undecided messages would be. *)
Lemma summary_has_no_undecided_count :
  let s_C := (process_inbox (mailbox mails model) Demo.cfg 3 ["C"] None).2 in
  let s_B := (process_inbox (mailbox mails model) Demo.cfg 3 ["B"] None).2 in
  settled_ids (log s_C) = ["C"] ∧ NoDecision "C" ∈ log s_C
  ∧ settled_ids (log s_B) = ["B"] ∧ Archived "B" ∈ log s_B
  ∧ summary s_C = [1; 0; 0; 0]%Z
  ∧ summary s_B = [1; 1; 0; 0]%Z
  ∧ ¬ ∃ k, summary s_C !! k = Some 1%Z ∧ summary s_B !! k = Some 0%Z.
Proof.
  cbv zeta.
  split; [by vm_compute |].
  split; [vm_compute; apply list_elem_of_In; simpl; tauto |].
  split; [by vm_compute |].
  split; [vm_compute; apply list_elem_of_In; simpl; tauto |].
  assert (summary (process_inbox (mailbox mails model) Demo.cfg 3 ["C"] None).2
          = [1; 0; 0; 0]%Z) as -> by (vm_compute; reflexivity).
  assert (summary (process_inbox (mailbox mails model) Demo.cfg 3 ["B"] None).2
          = [1; 1; 0; 0]%Z) as -> by (vm_compute; reflexivity).
  split; [done |]. split; [done |].
  intros (k & HC & HB). by destruct k as [|[|[|[|k]]]].
Qed.

(** ** C2: errors while handling one message *)

(** C2, as amended.  Only a failing model call is absorbed per message:
    [classify_email_with_gemini] logs it and answers [None], the message
    counts as processed, neither as archived nor as kept, and the [for]
    loop goes on with the next identifier.  A failing [messages().get], a
    failing [messages().modify] and a prompt that cannot be built are not
    handled per message: the exception leaves the [for] loop with the
    rest of the page unprocessed, and the handler of the [while] loop
    logs it and breaks; what was done before stays done, since the state
    reached is the one the handler continues from. *)
Theorem message_error_policy {W : Type} (gmail : remote W) (cfg : config) :
  (∀ msg_id rest (s : state W) msg w1 e w2,
     msg_id ∉ saved_inbox_ids s →
     messages_get gmail msg_id (world s) = (Ok msg, w1) →
     truthy (GEMINI_API_KEY cfg) = true →
     ∀ prompt,
     build_prompt (build_email_data msg_id msg) (classified_examples cfg)
       = Ok prompt →
     generate_content gmail prompt w1 = (Raise e, w2) →
     ∃ s', process_message gmail cfg msg_id s = (Ok tt, s')
       ∧ log s' = NoDecision msg_id :: OracleError e
                  :: GenerateCall prompt
                  :: ClassifyCall (build_email_data msg_id msg)
                  :: GetCall msg_id :: log s
       ∧ (processed_count s' = (processed_count s + 1)%Z
          ∧ archived_count s' = archived_count s
          ∧ inbox_count s' = inbox_count s)
       ∧ process_messages gmail cfg (msg_id :: rest) s
         = process_messages gmail cfg rest s')
  ∧ (∀ msg_id rest (s : state W) e w1,
       msg_id ∉ saved_inbox_ids s →
       messages_get gmail msg_id (world s) = (Raise e, w1) →
       process_messages gmail cfg (msg_id :: rest) s
       = (Raise e, with_world w1 (add_log (GetCall msg_id) s)))
  ∧ (∀ msg_id rest (s : state W) msg w1 s2 e w3,
       msg_id ∉ saved_inbox_ids s →
       messages_get gmail msg_id (world s) = (Ok msg, w1) →
       classify_email_with_gemini gmail cfg (build_email_data msg_id msg)
         (add_log (ClassifyCall (build_email_data msg_id msg))
            (with_world w1 (add_log (GetCall msg_id) s)))
         = (Ok (Some "[ARCHIVE]"), s2) →
       messages_modify gmail msg_id (world s2) = (Raise e, w3) →
       process_messages gmail cfg (msg_id :: rest) s
       = (Raise e,
          with_world w3 (add_log (ModifyCall msg_id) (count_processed s2))))
  ∧ (∀ (s : state W) resp w e s2,
       messages_list gmail (page_token s) (world s) = (Ok resp, w) →
       process_messages gmail cfg (default [] (messages resp))
         (add_log (PageFound (default [] (messages resp)))
            (with_world w (add_log (ListCall (page_token s)) s)))
         = (Raise e, s2) →
       ∀ fuel, while_true gmail cfg (S fuel) s
               = (Broke, add_log (ProcessingError e) s2))
  ∧ (∀ msg_id rest (s : state W) msg w1 e,
       msg_id ∉ saved_inbox_ids s →
       messages_get gmail msg_id (world s) = (Ok msg, w1) →
       truthy (GEMINI_API_KEY cfg) = true →
       build_prompt (build_email_data msg_id msg) (classified_examples cfg)
         = Raise e →
       process_messages gmail cfg (msg_id :: rest) s
       = (Raise e,
          add_log (ClassifyCall (build_email_data msg_id msg))
            (with_world w1 (add_log (GetCall msg_id) s)))).
Proof.
  split; [|split; [|split; [|split]]].
  - intros msg_id rest s msg w1 e w2 Hnew Hget Hkey prompt Hprompt Hgen.
    assert (∃ s', process_message gmail cfg msg_id s = (Ok tt, s')
              ∧ log s' = NoDecision msg_id :: OracleError e
                  :: GenerateCall prompt
                  :: ClassifyCall (build_email_data msg_id msg)
                  :: GetCall msg_id :: log s
              ∧ (processed_count s' = (processed_count s + 1)%Z
                 ∧ archived_count s' = archived_count s
                 ∧ inbox_count s' = inbox_count s))
      as (s' & Hrun & Hlog & Hcount).
    { rewrite process_message_unfold.
      destruct (decide (msg_id ∈ saved_inbox_ids s)); [done |].
      rewrite Hget. cbv zeta. rewrite classify_unfold, Hkey, Hprompt.
      state_simpl. rewrite Hgen, verdict_of_None.
      eexists. split; [done |]. split; [done |]. by state_simpl. }
    exists s'. repeat split; try done; try apply Hcount.
    simpl. unfold bind. by rewrite Hrun.
  - intros msg_id rest s e w1 Hnew Hget. simpl. unfold bind.
    rewrite process_message_unfold.
    destruct (decide (msg_id ∈ saved_inbox_ids s)); [done |]. by rewrite Hget.
  - intros msg_id rest s msg w1 s2 e w3 Hnew Hget Hrun Hmod. simpl. unfold bind.
    rewrite process_message_unfold.
    destruct (decide (msg_id ∈ saved_inbox_ids s)); [done |].
    rewrite Hget. cbv zeta. rewrite Hrun.
    assert (verdict_of (Some "[ARCHIVE]") = ARCHIVE) as -> by done.
    change (world (count_processed s2)) with (world s2). by rewrite Hmod.
  - intros s resp w e s2 Hlist Hrun fuel. simpl. unfold iteration.
    rewrite page_body_unfold, Hlist. cbv zeta.
    destruct (default [] (messages resp)) as [|i ids] eqn:Hids.
    + simpl in Hrun. by simplify_eq.
    + by rewrite Hrun.
  - intros msg_id rest s msg w1 e Hnew Hget Hkey Hprompt. simpl. unfold bind.
    rewrite process_message_unfold.
    destruct (decide (msg_id ∈ saved_inbox_ids s)); [done |].
    rewrite Hget. cbv zeta. by rewrite classify_unfold, Hkey, Hprompt.
Qed.

(** X is listed before A, and fetching X fails: A is not handled. *)
Lemma message_error_policy_witness :
  process_messages (mailbox mails model) Demo.cfg ["X"; "A"]
    (initial_state ["X"; "A"] None)
  = (Raise "404 Requested entity was not found.",
     with_world ["X"; "A"] (add_log (GetCall "X") (initial_state ["X"; "A"] None))).
Proof.
  refine (proj1 (proj2 (message_error_policy (mailbox mails model) Demo.cfg))
            "X" ["A"] (initial_state ["X"; "A"] None) _ _ _ _).
  - apply not_elem_of_empty.
  - reflexivity.
Defined.

(** C2 as stated fails: X and A are listed on one page and fetching X
    raises; the run ends there, A is never fetched, and nothing was
    processed. *)
Lemma failing_fetch_ends_the_run :
  let s := (process_inbox (mailbox mails model) Demo.cfg 3 ["X"; "A"] None).2 in
  log s = [ ProcessingError "404 Requested entity was not found.";
            GetCall "X"; PageFound ["X"; "A"]; ListCall None ]
  ∧ ("A" ∉ fetched_ids (log s))
  ∧ processed_count s = 0%Z
  ∧ settled_ids (log s) = [].
Proof.
  cbv zeta. split; [by vm_compute |]. split; [by_evaluation |]. by vm_compute.
Qed.

(** ** C8: messages with missing fields are classified *)






(** ** C9: how the pagination loop ends *)

(** C9, as amended.  One turn of the loop, from the answer of the listing
    call: an empty page ends the loop, with or without cursor; after a
    page whose messages were all handled without exception the loop ends
    when the cursor is missing or empty and otherwise goes on, and the
    next listing call carries the returned cursor; an exception of the
    listing call or of a message ends the loop. *)
Theorem pagination_turn {W : Type} (gmail : remote W) (cfg : config)
    (fuel : nat) (s : state W) :
  let listed := add_log (ListCall (page_token s)) s in
  match messages_list gmail (page_token s) (world s) with
  | (Raise e, w) =>
      while_true gmail cfg (S fuel) s
      = (Broke, add_log (ProcessingError e) (with_world w listed))
  | (Ok resp, w) =>
      match default [] (messages resp) with
      | [] =>
          while_true gmail cfg (S fuel) s
          = (Broke, add_log NoMoreMessages (with_world w listed))
      | ids =>
          match process_messages gmail cfg ids
                  (add_log (PageFound ids) (with_world w listed)) with
          | (Raise e, s2) =>
              while_true gmail cfg (S fuel) s
              = (Broke, add_log (ProcessingError e) s2)
          | (Ok _, s2) =>
              let s3 := with_page_token (nextPageToken resp) s2 in
              if truthy (nextPageToken resp) then
                while_true gmail cfg (S fuel) s = while_true gmail cfg fuel s3
                ∧ page_token s3 = nextPageToken resp
              else
                while_true gmail cfg (S fuel) s
                = (Broke, add_log AllPagesDone s3)
          end
      end
  end.
Proof.
  cbv zeta. rewrite while_true_unfold. unfold iteration.
  rewrite page_body_unfold.
  destruct (messages_list gmail (page_token s) (world s)) as [[resp|e] w];
    [|done].
  cbv zeta. destruct (default [] (messages resp)) as [|i ids]; [done |].
  destruct (process_messages gmail cfg (i :: ids) _) as [[[]|e] s2]; [|done].
  by destruct (truthy (nextPageToken resp)).
Qed.

(** C9 as stated fails in two ways.  The listing answers an empty page
    with a cursor and would answer A on the next page: the loop ends
    after one call.  The listing answers X and A with a cursor and
    fetching X raises: the loop ends although a cursor was returned. *)
Lemma loop_ends_despite_cursor :
  let empty_page := {| messages := Some []; nextPageToken := Some "t2" |} in
  let page_A := {| messages := Some ["A"]; nextPageToken := None |} in
  let page_X := {| messages := Some ["X"; "A"]; nextPageToken := Some "t2" |} in
  process_inbox (scripted mails model) Demo.cfg 5
    ([Ok empty_page; Ok page_A], ["A"]) None
  = (Broke,
     add_log NoMoreMessages
       (with_world ([Ok page_A], ["A"])
          (add_log (ListCall None) (initial_state ([Ok empty_page; Ok page_A], ["A"]) None))))
  ∧ log (process_inbox (scripted mails model) Demo.cfg 5
           ([Ok page_X; Ok page_A], ["X"; "A"]) None).2
    = [ ProcessingError "404 Requested entity was not found.";
        GetCall "X"; PageFound ["X"; "A"]; ListCall None ].
Proof. split; by vm_compute. Qed.

(** Two pages: the second listing call carries the cursor of the first
    answer, and the missing cursor of the second answer ends the loop. *)
Example two_pages :
  let page_1 := {| messages := Some ["A"]; nextPageToken := Some "t2" |} in
  let page_2 := {| messages := Some ["B"]; nextPageToken := None |} in
  let r := process_inbox (scripted mails model) Demo.cfg 5
             ([Ok page_1; Ok page_2], ["A"; "B"]) None in
  r.1 = Broke
  ∧ listing_tokens (log r.2) = [Some "t2"; None]
  ∧ listed_ids (log r.2) = ["B"; "A"]
  ∧ world r.2 = ([], ["A"]).
Proof. by vm_compute. Qed.

(** ** C7: no identifier twice in the decision store *)

Lemma outer_event_silent (e : event) :
  outer_event e →
  saved_ids [e] = [] ∧ settled_ids [e] = [] ∧ classified_ids [e] = []
  ∧ fetched_ids [e] = [] ∧ modified_ids [e] = [].
Proof. by destruct e. Qed.

Section Appends.

Context {W : Type}.
Variable gmail : remote W.
Variable cfg : config.

Lemma classify_settled email (s : state W) r s' :
  classify_email_with_gemini gmail cfg email s = (r, s') →
  settled_ids (log s') = settled_ids (log s).
Proof. intros Hrun. by classify_cases Hrun. Qed.

Lemma appends_guarded_message saved0 id (s : state W) r s' :
  appends_guarded saved0 s →
  process_message gmail cfg id s = (r, s') → appends_guarded saved0 s'.
Proof.
  intros (Hnd & Hfresh & Hset) Hrun.
  message_cases Hrun; try (split; [|split]; done).
  split; [|split]; simpl.
  - apply NoDup_cons. split; [|done]. rewrite Hset in n. set_solver.
  - intros i [-> | Hi]%elem_of_cons; [|by apply Hfresh].
    rewrite Hset in n. set_solver.
  - rewrite Hset. set_solver.
Qed.

Lemma appends_guarded_while saved0 fuel (s : state W) :
  appends_guarded saved0 s →
  appends_guarded saved0 (while_true gmail cfg fuel s).2.
Proof.
  apply (while_true_inv gmail cfg (appends_guarded saved0) (λ _, True)).
  - intros e s0 He Hs. by destruct e.
  - done.
  - intros t s0 r w Hs _. split; [done |].
    intros resp _. by apply Forall_forall.
  - intros id s0 r s' _. apply appends_guarded_message.
Qed.

Lemma store_tracks_message f0 id (s : state W) r s' :
  store_tracks f0 s →
  process_message gmail cfg id s = (r, s') → store_tracks f0 s'.
Proof.
  intros Hs Hrun.
  message_cases Hrun; try exact Hs.
  unfold store_tracks. state_simpl. simpl saved_ids.
  intros [Hid Hplain]%Forall_cons. destruct (Hs Hplain) as (Ht & Hids & Hset).
  split; [apply save_terminated |]. split.
  - rewrite stored_ids_save_plain by done.
    rewrite Hids, reverse_cons. by rewrite <- (assoc_L (++)).
  - rewrite load_save_plain by done. rewrite Hset. set_solver.
Qed.

Lemma store_tracks_while f0 fuel (s : state W) :
  store_tracks f0 s → store_tracks f0 (while_true gmail cfg fuel s).2.
Proof.
  apply (while_true_inv gmail cfg (store_tracks f0) (λ _, True)).
  - intros e s0 He Hs. by destruct e.
  - done.
  - intros t s0 r w Hs _. split; [done |].
    intros resp _. by apply Forall_forall.
  - intros id s0 r s' _. apply store_tracks_message.
Qed.

Lemma store_tracks_initial (w : W) f :
  well_terminated f = true → store_tracks f (initial_state w f).
Proof.
  intros Ht _. simpl. split; [done |]. split; [|done].
  by rewrite reverse_nil, (right_id_L [] (++)).
Qed.

End Appends.

(** C7, as amended.  In every run the appends are guarded: an identifier
    is appended only when it is not in the in-memory set, so the
    identifiers appended by one run are pairwise distinct and none of them
    was in the store when the run started.  When moreover the store file
    is absent, empty or ends with a line feed and holds no identifier
    twice, and the identifiers the run appends have no surrounding
    whitespace and no line terminator, then the store holds no identifier
    twice after the run: it lists the earlier identifiers followed by the
    appended ones. *)
Theorem store_ids_stay_distinct {W : Type} (gmail : remote W) (cfg : config)
    (fuel : nat) (w : W) (f : file) :
  let s := (process_inbox gmail cfg fuel w f).2 in
  (NoDup (saved_ids (log s))
   ∧ ∀ id, id ∈ saved_ids (log s) → id ∉ load_inbox_saved_ids f)
  ∧ (well_terminated f = true →
     NoDup (stored_ids f) →
     Forall (λ i, plain_id i = true) (saved_ids (log s)) →
     NoDup (stored_ids (store s))
     ∧ stored_ids (store s) = (stored_ids f ++ reverse (saved_ids (log s)))%list).
Proof.
  cbv zeta. unfold process_inbox.
  destruct (appends_guarded_while gmail cfg (load_inbox_saved_ids f) fuel
              (initial_state w f)) as (Hnd & Hfresh & _).
  { split; [constructor |]. split; [by intros i Hi%elem_of_nil |].
    simpl. set_solver. }
  split; [done |]. intros Ht Hf Hplain.
  destruct (store_tracks_while gmail cfg f fuel (initial_state w f)
              (store_tracks_initial w f Ht) Hplain) as (_ & Hids & _).
  split; [|exact Hids]. rewrite Hids.
  apply NoDup_app. split; [done |]. split; [|by rewrite reverse_Permutation].
  intros i Hi Hi'. rewrite elem_of_reverse in Hi'.
  apply (Hfresh i Hi'). unfold load_inbox_saved_ids. set_solver.
Qed.

(** A store holding C: the run skips C, keeps A and archives B, and the
    store then lists C and A. *)
Lemma store_ids_stay_distinct_witness :
  let s := (process_inbox (mailbox mails model) Demo.cfg 3 ["C"; "A"; "B"]
              (Some ("C" ++ nl))).2 in
  NoDup (stored_ids (store s))
  ∧ stored_ids (store s)
    = (stored_ids (Some ("C" ++ nl)%string) ++ reverse (saved_ids (log s)))%list.
Proof.
  refine (proj2 (store_ids_stay_distinct (mailbox mails model) Demo.cfg 3
                   ["C"; "A"; "B"] (Some ("C" ++ nl))) _ _ _).
  - reflexivity.
  - by_evaluation.
  - by_evaluation.
Defined.

(** C7 as stated fails.  On a file without final line feed the appended
    identifier merges with the last line: the store holds [ab] and [a],
    the run keeps [b], and the store then reads [ab] twice.  And an
    identifier with surrounding whitespace is stored stripped: the store
    holds [a], the run keeps [ a], and the store then reads [a] twice. *)
Lemma merged_line_duplicates_id :
  let s := (process_inbox (mailbox bare keep_all) Demo.cfg 2 ["b"]
              (Some ("ab" ++ nl ++ "a"))).2 in
  let s' := (process_inbox (mailbox bare keep_all) Demo.cfg 2 [" a"]
               (Some ("a" ++ nl))).2 in
  NoDup (stored_ids (Some ("ab" ++ nl ++ "a")))
  ∧ stored_ids (store s) = ["ab"; "ab"]
  ∧ ¬ NoDup (stored_ids (store s))
  ∧ NoDup (stored_ids (Some ("a" ++ nl)))
  ∧ stored_ids (store s') = ["a"; "a"]
  ∧ ¬ NoDup (stored_ids (store s')).
Proof.
  cbv zeta.
  split; [by_evaluation |]. split; [by vm_compute |]. split; [by_evaluation |].
  split; [by_evaluation |]. split; [by vm_compute |]. by_evaluation.
Qed.

(** ** C4: a second run right after the first *)

Section TwoRuns.

Context {W : Type}.
Variable gmail : remote W.
Variable cfg : config.
Variable inbox : W → gset string.
Variable metadata : string → message.
Variable reply : string → result string.
Hypothesis Hsteady : steady gmail inbox metadata reply.

Abbreviation decision := (decision_for cfg metadata reply).

Lemma classify_steady id (s : state W) r s' :
  classify_email_with_gemini gmail cfg (build_email_data id (metadata id)) s
    = (r, s') →
  r = decision id ∧ inbox (world s') ⊆ inbox (world s).
Proof.
  rewrite classify_unfold. unfold decision_for.
  destruct (truthy _); [|by intros ?; simplify_eq].
  destruct (build_prompt _ _) as [prompt|e]; [|by intros ?; simplify_eq].
  destruct (generate_content _ _ _) as [r0 w] eqn:Hgen.
  rewrite <- (generate_same _ _ _ _ Hsteady _ _ _ _ Hgen).
  pose proof (generate_keeps _ _ _ _ Hsteady _ _ _ _ Hgen) as Hsub.
  destruct r0 as [text|e]; [destruct (interpret_response text) |];
    by intros ?; simplify_eq.
Qed.

(** The state [s'] settles the identifiers [new] on top of those of [s],
    with a larger in-memory set and a smaller inbox. *)
Lemma settled_for_good_step new (s s' : state W) :
  settled_ids (log s') = (new ++ settled_ids (log s))%list →
  saved_inbox_ids s ⊆ saved_inbox_ids s' →
  inbox (world s') ⊆ inbox (world s) →
  (∀ i, i ∈ new →
     i ∈ saved_inbox_ids s' ∨ i ∉ inbox (world s')
     ∨ undecided (decision i)) →
  settled_for_good inbox decision s → settled_for_good inbox decision s'.
Proof.
  intros Hlog Hsaved Hinbox Hnew Hs i. rewrite Hlog, elem_of_app.
  intros [Hi | Hi]; [by apply Hnew |].
  destruct (Hs i Hi) as [? | [? | ?]]; [left | right; left | right; right];
    set_solver.
Qed.

Lemma settled_for_good_message id (s : state W) r s' :
  settled_for_good inbox decision s →
  process_message gmail cfg id s = (r, s') →
  settled_for_good inbox decision s'.
Proof.
  intros Hs. rewrite process_message_unfold.
  destruct (decide (id ∈ saved_inbox_ids s)) as [Hin | Hout].
  { intros ?; simplify_eq.
    apply (settled_for_good_step [id] s); try done.
    intros i ->%list_elem_of_singleton. by left. }
  destruct (messages_get gmail id (world s)) as [[msg|e] w1] eqn:Hget.
  2:{ intros ?; simplify_eq.
      apply (settled_for_good_step [] s); try done.
      - exact (get_keeps _ _ _ _ Hsteady _ _ _ _ Hget).
      - by intros i Hi%elem_of_nil. }
  pose proof (get_keeps _ _ _ _ Hsteady _ _ _ _ Hget) as Hsub1.
  rewrite (get_same _ _ _ _ Hsteady _ _ _ _ Hget). cbv zeta.
  destruct (classify_email_with_gemini _ _ _ _) as [r1 s2] eqn:Hrun.
  destruct (classify_steady _ _ _ _ Hrun) as [Hdec Hsub2].
  pose proof (classify_settled _ _ _ _ _ _ Hrun) as Hset.
  apply classify_frame in Hrun as (_ & (_ & Hsv & _) & _).
  state_simpl. simpl settled_ids in Hset.
  destruct r1 as [d|e].
  2:{ intros ?; simplify_eq.
      apply (settled_for_good_step [] s); try done.
      - by rewrite Hsv.
      - set_solver.
      - by intros i Hi%elem_of_nil. }
  destruct (verdict_of d) eqn:Hv.
  - destruct (messages_modify gmail id (world s2)) as [[[]|e] w3] eqn:Hmod;
      intros ?; simplify_eq;
      pose proof (modify_keeps _ _ _ _ Hsteady _ _ _ _ Hmod) as Hsub3.
    + apply (settled_for_good_step [id] s); state_simpl.
      * simpl. by rewrite Hset.
      * by rewrite Hsv.
      * set_solver.
      * intros i ->%list_elem_of_singleton. right; left.
        exact (modify_removes _ _ _ _ Hsteady _ _ _ Hmod).
      * done.
    + apply (settled_for_good_step [] s); state_simpl.
      * simpl. by rewrite Hset.
      * by rewrite Hsv.
      * set_solver.
      * by intros i Hi%elem_of_nil.
      * done.
  - intros ?; simplify_eq.
    apply (settled_for_good_step [id] s); state_simpl.
    + simpl. by rewrite Hset.
    + rewrite Hsv. set_solver.
    + set_solver.
    + intros i ->%list_elem_of_singleton. left. set_solver.
    + done.
  - intros ?; simplify_eq.
    apply (settled_for_good_step [id] s); state_simpl.
    + simpl. by rewrite Hset.
    + by rewrite Hsv.
    + set_solver.
    + intros i ->%list_elem_of_singleton. right; right. by exists d.
    + done.
Qed.

Lemma settled_for_good_while fuel (s : state W) :
  settled_for_good inbox decision s →
  settled_for_good inbox decision (while_true gmail cfg fuel s).2.
Proof.
  apply (while_true_inv gmail cfg (settled_for_good inbox decision) (λ _, True)).
  - intros e s0 He Hs.
    apply (settled_for_good_step [] s0); try done.
    + simpl. by destruct e.
    + by intros i Hi%elem_of_nil.
  - done.
  - intros t s0 r w Hs Hlist. split; [|intros resp _; by apply Forall_forall].
    apply (settled_for_good_step [] s0); try done.
    + exact (list_keeps _ _ _ _ Hsteady _ _ _ _ Hlist).
    + by intros i Hi%elem_of_nil.
  - intros id s0 r s' _. apply settled_for_good_message.
Qed.

Variables saved1 inbox1 : gset string.
Hypothesis Hcovered : ∀ i,
  i ∈ inbox1 → i ∈ saved1 ∨ undecided (decision i).

Lemma nothing_to_do_message id (s : state W) r s' :
  id ∈ inbox1 →
  nothing_to_do inbox saved1 inbox1 s →
  process_message gmail cfg id s = (r, s') →
  nothing_to_do inbox saved1 inbox1 s'.
Proof.
  intros Hid (Ha & Hi & Hs & Hw). rewrite process_message_unfold.
  destruct (decide (id ∈ saved_inbox_ids s)) as [Hin | Hout].
  { by intros ?; simplify_eq. }
  destruct (messages_get gmail id (world s)) as [[msg|e] w1] eqn:Hget;
    pose proof (get_keeps _ _ _ _ Hsteady _ _ _ _ Hget) as Hsub1.
  2:{ intros ?; simplify_eq. repeat split; try done. state_simpl. set_solver. }
  rewrite (get_same _ _ _ _ Hsteady _ _ _ _ Hget). cbv zeta.
  destruct (classify_email_with_gemini _ _ _ _) as [r1 s2] eqn:Hrun.
  destruct (classify_steady _ _ _ _ Hrun) as [-> Hsub2].
  apply classify_frame in Hrun as (_ & (_ & Hsv & _ & _ & Ha2 & Hi2) & _).
  state_simpl.
  destruct (Hcovered id Hid) as [Hsaved | (d & -> & ->)];
    [by rewrite Hs in Hout |].
  intros ?; simplify_eq. unfold nothing_to_do. state_simpl.
  rewrite Ha2, Hi2, Hsv. repeat split; try done. set_solver.
Qed.

Lemma nothing_to_do_while fuel (s : state W) :
  nothing_to_do inbox saved1 inbox1 s →
  nothing_to_do inbox saved1 inbox1 (while_true gmail cfg fuel s).2.
Proof.
  apply (while_true_inv gmail cfg (nothing_to_do inbox saved1 inbox1)
           (λ i, i ∈ inbox1)).
  - intros e s0 He Hs. exact Hs.
  - intros t s0 Hs. exact Hs.
  - intros t s0 r w (Ha & Hi & Hs & Hw) Hlist.
    pose proof (list_keeps _ _ _ _ Hsteady _ _ _ _ Hlist) as Hsub.
    split.
    + repeat split; try done. state_simpl. set_solver.
    + intros resp ->. apply Forall_forall. intros i Hin.
      apply Hw, Hsub. exact (listed_in_inbox _ _ _ _ Hsteady _ _ _ _ Hlist i Hin).
  - intros id s0 r s' Hid Hs. by apply nothing_to_do_message.
Qed.

End TwoRuns.

(** The simulated mailbox does not change on its own. *)
Lemma mailbox_steady (metadata : string → message)
    (reply : string → result string) :
  steady (mailbox (λ i, Ok (metadata i)) reply) list_to_set metadata reply.
Proof.
  split; simpl.
  - intros t w resp w' [= <- <-] i. by destruct w; set_solver.
  - by intros t w r w' [= <- <-].
  - by intros i w r w' [= <- <-].
  - by intros i w msg w' [= <- <-].
  - intros i w r w' [= <- <-] x. unfold remove.
    rewrite !elem_of_list_to_set, list_elem_of_filter. tauto.
  - intros i w w' [= <-]. unfold remove.
    rewrite elem_of_list_to_set, list_elem_of_filter. tauto.
  - by intros p w r w' [= <- <-].
  - by intros p w r w' [= <- <-].
Qed.

(** C4, as amended.  Take a mailbox and a model that do not change on
    their own, a store file that is absent, empty or ends with a line
    feed, and a first run that settled every message still in the inbox
    when it ended (no exception and no listing cut it short) and kept only
    identifiers without surrounding whitespace or line terminator.  Then a
    second run started right after it, however long, archives nothing and
    keeps nothing. *)
Theorem second_run_is_idle {W : Type} (gmail : remote W) (cfg : config)
    (inbox : W → gset string) (metadata : string → message)
    (reply : string → result string) (fuel1 fuel2 : nat) (w0 : W) (f0 : file) :
  steady gmail inbox metadata reply →
  well_terminated f0 = true →
  let s1 := (process_inbox gmail cfg fuel1 w0 f0).2 in
  Forall (λ i, plain_id i = true) (saved_ids (log s1)) →
  (∀ i, i ∈ inbox (world s1) → i ∈ settled_ids (log s1)) →
  let s2 := (process_inbox gmail cfg fuel2 (world s1) (store s1)).2 in
  archived_count s2 = 0%Z ∧ inbox_count s2 = 0%Z.
Proof.
  intros Hsteady Ht s1 Hplain Hall s2.
  assert (settled_for_good inbox (decision_for cfg metadata reply) s1) as Hgood.
  { apply (settled_for_good_while gmail cfg inbox metadata reply Hsteady).
    by intros i Hi%elem_of_nil. }
  destruct (store_tracks_while gmail cfg f0 fuel1 (initial_state w0 f0)
              (store_tracks_initial w0 f0 Ht) Hplain) as (_ & _ & Hload).
  fold (process_inbox gmail cfg fuel1 w0 f0) in Hload. fold s1 in Hload.
  destruct (nothing_to_do_while gmail cfg inbox metadata reply Hsteady
              (load_inbox_saved_ids (store s1)) (inbox (world s1))) with
    (fuel := fuel2) (s := initial_state (world s1) (store s1))
    as (Ha & Hi & _).
  - intros i Hi. destruct (Hgood i (Hall i Hi)) as [? | [? | ?]];
      [left; by rewrite <- Hload | done | by right].
  - done.
  - done.
Qed.

(** A is kept, B archived and C left undecided by the first run; the
    second run finds A and C and changes nothing. *)
Lemma second_run_is_idle_witness :
  let s1 := (process_inbox (mailbox (λ i, Ok (mail_of i)) model) Demo.cfg 3
               ["A"; "B"; "C"] None).2 in
  let s2 := (process_inbox (mailbox (λ i, Ok (mail_of i)) model) Demo.cfg 3
               (world s1) (store s1)).2 in
  archived_count s2 = 0%Z ∧ inbox_count s2 = 0%Z.
Proof.
  refine (second_run_is_idle (mailbox (λ i, Ok (mail_of i)) model) Demo.cfg
            list_to_set mail_of model 3 3 ["A"; "B"; "C"] None
            (mailbox_steady mail_of model) eq_refl _ _).
  - by_evaluation.
  - intros i.
    assert (world (process_inbox (mailbox (λ i, Ok (mail_of i)) model) Demo.cfg
                     3 ["A"; "B"; "C"] None).2 = ["A"; "C"]) as ->
      by (vm_compute; reflexivity).
    assert (settled_ids (log (process_inbox (mailbox (λ i, Ok (mail_of i)) model)
                                Demo.cfg 3 ["A"; "B"; "C"] None).2)
            = ["C"; "B"; "A"]) as -> by (vm_compute; reflexivity).
    rewrite elem_of_list_to_set, !elem_of_cons. tauto.
Defined.

(** C4 as stated fails when the first run is cut short: its listing call
    raises, so it ends at once and leaves the mailbox as it was; the
    second run lists B and archives it. *)
Lemma second_run_after_failed_listing :
  let w0 := ([Raise "503 Backend Error"], ["B"]) in
  let s1 := (process_inbox (scripted mails model) Demo.cfg 3 w0 None).2 in
  let s2 := (process_inbox (scripted mails model) Demo.cfg 3
               (world s1) (store s1)).2 in
  (world s1).2 = w0.2
  ∧ store s1 = None
  ∧ archived_count s1 = 0%Z
  ∧ archived_count s2 = 1%Z.
Proof. by vm_compute. Qed.

(* ===================================================================== *)
(** * Further properties of [main.py] *)
(* ===================================================================== *)

Import Ledger.

(** ** Two more ways to lift an invariant to the loop *)

Section LiftingByPage.

Context {W : Type}.
Variable gmail : remote W.
Variable cfg : config.

(** [I] holds as long as nothing raised, [E] from then on. *)
Variables I E : state W → Prop.

Hypothesis I_E : ∀ s, I s → E s.
Hypothesis I_page : ∀ s c s', I s → page_body gmail cfg s = (Ok c, s') → I s'.
Hypothesis E_page : ∀ s e s',
  I s → page_body gmail cfg s = (Raise e, s') → E (add_log (ProcessingError e) s').

Lemma while_true_by_page fuel s : I s → E (while_true gmail cfg fuel s).2.
Proof.
  revert s. induction fuel as [|fuel IH]; intros s Hs; [by apply I_E |].
  rewrite while_true_unfold. unfold iteration.
  destruct (page_body gmail cfg s) as [[c|e] s'] eqn:Hbody.
  - pose proof (I_page s c s' Hs Hbody) as Hs'.
    destruct c; [by apply I_E | by apply IH].
  - by eapply E_page.
Qed.

End LiftingByPage.

Section LiftingTwoPhase.

Context {W : Type}.
Variable gmail : remote W.
Variable cfg : config.
Variables I E : state W → Prop.

Hypothesis I_E : ∀ s, I s → E s.
Hypothesis I_log : ∀ e s, outer_event e → I s → I (add_log e s).
Hypothesis E_log : ∀ e s, E s → E (add_log (ProcessingError e) s).
Hypothesis I_token : ∀ t s, I s → I (with_page_token t s).
Hypothesis I_world : ∀ w s, I s → I (with_world w s).
Hypothesis IE_message : ∀ id s r s',
  I s → process_message gmail cfg id s = (r, s') →
  match r with Ok _ => I s' | Raise _ => E s' end.



End LiftingTwoPhase.

(** ** The counters of the summary *)





(** ** A run without key *)



Import Cases.


(** ** Actions follow decisions *)

Lemma decision_for_range cfg metadata reply i d :
  decision_for cfg metadata reply i = Ok d →
  d = None ∨ d = Some "[ARCHIVE]" ∨ d = Some "[INBOX]".
Proof.
  unfold decision_for. destruct (truthy _); [|intros [= <-]; by left].
  destruct (build_prompt _ _) as [prompt|e]; [|done].
  destruct (reply _) as [text|e]; [|intros [= <-]; by left].
  destruct (interpret_response text) as [d'|] eqn:Hint;
    [|intros [= <-]; by left].
  apply interpret_response_accepted in Hint as [_ Hin].
  unfold accepted in Hin. rewrite !elem_of_cons, elem_of_nil in Hin.
  intros [= <-]. destruct Hin as [-> | [-> | []]]; auto.
Qed.

Lemma classify_undecided {W : Type} (gmail : remote W) (cfg : config)
    email (s : state W) r s' :
  classify_email_with_gemini gmail cfg email s = (r, s') →
  undecided_ids (log s') = undecided_ids (log s)
  ∧ archived_ids (log s') = archived_ids (log s)
  ∧ touched_ids (log s') = touched_ids (log s)
  ∧ listed_ids (log s') = listed_ids (log s).
Proof. intros Hrun. by classify_cases Hrun. Qed.

Section Obedience.

Context {W : Type}.
Variable gmail : remote W.
Variable cfg : config.
Variable inbox : W → gset string.
Variable metadata : string → message.
Variable reply : string → result string.
Hypothesis Hsteady : steady gmail inbox metadata reply.

Lemma obeys_message id (s : state W) r s' :
  obeys (decision_for cfg metadata reply) s →
  process_message gmail cfg id s = (r, s') →
  obeys (decision_for cfg metadata reply) s'.
Proof.
  intros (Hm & Hs & Hu). rewrite process_message_unfold.
  destruct (decide (id ∈ saved_inbox_ids s)) as [Hin | Hout].
  { by intros ?; simplify_eq. }
  destruct (messages_get gmail id (world s)) as [[msg|e] w1] eqn:Hget.
  2:{ by intros ?; simplify_eq. }
  rewrite (get_same _ _ _ _ Hsteady _ _ _ _ Hget). cbv zeta.
  destruct (classify_email_with_gemini _ _ _ _) as [r1 s2] eqn:Hrun.
  destruct (classify_steady _ _ _ _ _ Hsteady _ _ _ _ Hrun) as [Hdec _].
  destruct (classify_undecided _ _ _ _ _ _ Hrun) as (Hu2 & _).
  apply classify_frame in Hrun as (_ & _ & Hm2 & Hs2 & _).
  simpl in Hm2, Hs2, Hu2.
  destruct r1 as [d|e].
  2:{ intros ?; simplify_eq. unfold obeys. by rewrite Hm2, Hs2, Hu2. }
  symmetry in Hdec.
  destruct (verdict_of d) eqn:Hv.
  - apply verdict_of_archive in Hv.
    destruct (messages_modify gmail id (world _)) as [[[]|e] w3];
      intros ?; simplify_eq; unfold obeys; state_simpl; simpl;
      rewrite Hm2, Hs2, Hu2; (split; [|done]);
      intros i [-> | Hi]%elem_of_cons; auto.
  - apply verdict_of_retain in Hv.
    intros ?; simplify_eq. unfold obeys. state_simpl. simpl.
    rewrite Hm2, Hs2, Hu2. split; [done |]. split; [|done].
    intros i [-> | Hi]%elem_of_cons; auto.
  - intros ?; simplify_eq. unfold obeys. state_simpl. simpl.
    rewrite Hm2, Hs2, Hu2. split; [done |]. split; [done |].
    intros i [Heq | Hi]%elem_of_cons; [|auto]. rewrite Heq.
    destruct (decision_for_range cfg metadata reply id d Hdec)
      as [-> | [-> | ->]]; done.
Qed.

End Obedience.

(** X3.  With a mailbox and a model that do not change on their own,
    every action of a run follows the decision of its message: an archive
    call is made only for a message whose answer reads [[ARCHIVE]], an
    identifier is appended to the store only when the answer reads
    [[INBOX]], and a message is left without decision only when the
    classification returns [None]; none of the three happens for a
    message whose classification raises. *)
Theorem actions_follow_decisions {W : Type} (gmail : remote W) (cfg : config)
    (inbox : W → gset string) (metadata : string → message)
    (reply : string → result string) (fuel : nat) (w : W) (f : file) :
  steady gmail inbox metadata reply →
  let s := (process_inbox gmail cfg fuel w f).2 in
  let decision := decision_for cfg metadata reply in
  (∀ i, i ∈ modified_ids (log s) → decision i = Ok (Some "[ARCHIVE]"))
  ∧ (∀ i, i ∈ saved_ids (log s) → decision i = Ok (Some "[INBOX]"))
  ∧ (∀ i, i ∈ undecided_ids (log s) → decision i = Ok None).
Proof.
  intros Hsteady. cbv zeta.
  apply (while_true_inv gmail cfg (obeys (decision_for cfg metadata reply))
           (λ _, True)).
  - intros e s He Hs. by destruct e.
  - done.
  - intros t s r w0 Hs _. split; [done |]. intros resp _. by apply Forall_forall.
  - intros id s r s' _. by apply (obeys_message gmail cfg inbox).
  - by repeat split; intros i Hi%elem_of_nil.
Qed.

Lemma actions_follow_decisions_witness :
  let s := (process_inbox (mailbox (λ i, Ok (mail_of i)) model) Demo.cfg 3
              ["A"; "B"; "C"] None).2 in
  let decision := decision_for Demo.cfg mail_of model in
  (∀ i, i ∈ modified_ids (log s) → decision i = Ok (Some "[ARCHIVE]"))
  ∧ (∀ i, i ∈ saved_ids (log s) → decision i = Ok (Some "[INBOX]"))
  ∧ (∀ i, i ∈ undecided_ids (log s) → decision i = Ok None).
Proof.
  exact (actions_follow_decisions (mailbox (λ i, Ok (mail_of i)) model) Demo.cfg
           list_to_set mail_of model 3 ["A"; "B"; "C"] None
           (mailbox_steady mail_of model)).
Defined.

(** ** Only listed messages are touched *)

Section Listing.

Context {W : Type}.
Variable gmail : remote W.
Variable cfg : config.

Lemma touched_message id (s : state W) r s' :
  process_message gmail cfg id s = (r, s') →
  listed_ids (log s') = listed_ids (log s)
  ∧ ∀ i, i ∈ touched_ids (log s') → i = id ∨ i ∈ touched_ids (log s).
Proof.
  intros Hrun.
  message_cases Hrun; (split; [done |]); intros i; simpl;
    rewrite ?elem_of_cons; naive_solver.
Qed.

Lemma touched_messages ids (s : state W) r s' :
  process_messages gmail cfg ids s = (r, s') →
  listed_ids (log s') = listed_ids (log s)
  ∧ ∀ i, i ∈ touched_ids (log s') → i ∈ ids ∨ i ∈ touched_ids (log s).
Proof.
  revert s. induction ids as [|id ids IH]; intros s Hrun.
  - simpl in Hrun. unfold ret in Hrun. simplify_eq. auto.
  - simpl in Hrun. unfold bind in Hrun.
    destruct (process_message gmail cfg id s) as [[[]|e] s1] eqn:Hstep;
      destruct (touched_message _ _ _ _ Hstep) as [Hl1 Ht1].
    + destruct (IH s1 Hrun) as [Hl2 Ht2]. split; [congruence |].
      intros i Hi. rewrite elem_of_cons.
      destruct (Ht2 i Hi) as [? | Hi1]; [tauto |].
      destruct (Ht1 i Hi1); tauto.
    + simplify_eq. split; [done |]. intros i Hi. rewrite elem_of_cons.
      destruct (Ht1 i Hi); tauto.
Qed.

Lemma within_listing_page (s : state W) r s' :
  within_listing s → page_body gmail cfg s = (r, s') → within_listing s'.
Proof.
  intros Hs. rewrite page_body_unfold.
  destruct (messages_list gmail (page_token s) (world s)) as [[resp|e] w];
    [|by intros ?; simplify_eq].
  cbv zeta. destruct (default [] (messages resp)) as [|i0 ids].
  { by intros ?; simplify_eq. }
  destruct (process_messages gmail cfg (i0 :: ids) _) as [r1 s2] eqn:Hrun.
  destruct (touched_messages _ _ _ _ Hrun) as [Hl Ht].
  assert (within_listing s2) as Hs2.
  { intros i Hi. rewrite Hl.
    change (i ∈ ((i0 :: ids) ++ listed_ids (log s))%list).
    rewrite elem_of_app.
    destruct (Ht i Hi) as [? | Hold]; [by left |]. right. by apply Hs. }
  destruct r1 as [[]|e]; [|by intros ?; simplify_eq].
  by destruct (truthy (nextPageToken resp)); intros ?; simplify_eq.
Qed.

End Listing.

(** X4.  A run fetches, classifies, archives and appends only
    identifiers that a listing call of the same run returned. *)
Theorem only_listed_ids_touched {W : Type} (gmail : remote W) (cfg : config)
    (fuel : nat) (w : W) (f : file) (i : string) :
  let l := log (process_inbox gmail cfg fuel w f).2 in
  (i ∈ fetched_ids l ∨ i ∈ classified_ids l ∨ i ∈ modified_ids l
   ∨ i ∈ saved_ids l) →
  i ∈ listed_ids l.
Proof.
  cbv zeta. intros Hi.
  assert (within_listing (process_inbox gmail cfg fuel w f).2) as Hall.
  { apply (while_true_by_page gmail cfg within_listing within_listing).
    - done.
    - intros s c s'. apply within_listing_page.
    - intros s e s' Hs Hbody. by apply (within_listing_page _ _ s _ s') in Hbody.
    - by intros j Hj%elem_of_nil. }
  apply Hall. clear Hall.
  induction (log (process_inbox gmail cfg fuel w f).2) as [|e l IH].
  { rewrite !elem_of_nil in Hi. tauto. }
  destruct e; simpl in *; rewrite ?elem_of_cons in *; naive_solver.
Qed.

Lemma only_listed_ids_touched_witness :
  "B" ∈ listed_ids (log (process_inbox (mailbox mails model) Demo.cfg 3
                           ["A"; "B"] None).2).
Proof.
  apply (only_listed_ids_touched (mailbox mails model) Demo.cfg 3 ["A"; "B"]
           None "B").
  right; right; left. by_evaluation.
Defined.

(** ** The store file is only appended to *)

Lemma concat_snoc (parts : list string) (x : string) :
  String.concat "" (parts ++ [x]) = String.concat "" parts ++ x.
Proof.
  induction parts as [|y ys IH]; [done |].
  change ((y :: ys) ++ [x])%list with (y :: (ys ++ [x]))%list.
  destruct ys as [|z zs]; [done |].
  change (String.concat "" (y :: ((z :: zs) ++ [x])%list))
    with (y ++ "" ++ String.concat "" ((z :: zs) ++ [x])).
  rewrite IH.
  change (String.concat "" (y :: z :: zs))
    with (y ++ "" ++ String.concat "" (z :: zs)).
  by rewrite !app_assoc'.
Qed.

Lemma appended_to_message {W : Type} (gmail : remote W) (cfg : config) f0
    id (s : state W) r s' :
  appended_to f0 s → process_message gmail cfg id s = (r, s') →
  appended_to f0 s'.
Proof.
  unfold appended_to. intros Hs Hrun.
  message_cases Hrun; state_simpl; simpl; by rewrite ?Hs.
Qed.

(** X5.  The only thing a run does to the store file is to append: the
    file it leaves is the file it found followed by one line per kept
    identifier, in the order of keeping; earlier content is never
    rewritten, and a run that keeps nothing leaves the file as it was. *)
Theorem store_is_append_only {W : Type} (gmail : remote W) (cfg : config)
    (fuel : nat) (w : W) (f : file) :
  let s := (process_inbox gmail cfg fuel w f).2 in
  store s = foldr save_inbox_id f (saved_ids (log s))
  ∧ default "" (store s)
    = default "" f ++ String.concat "" ((λ i, i ++ nl) <$> reverse (saved_ids (log s)))
  ∧ (saved_ids (log s) = [] → store s = f).
Proof.
  cbv zeta.
  assert (appended_to f (process_inbox gmail cfg fuel w f).2) as Hs.
  { apply (while_true_inv gmail cfg (appended_to f) (λ _, True)).
    - intros e s He Hs. by destruct e.
    - done.
    - intros t s r w0 Hs _. split; [done |]. intros resp _. by apply Forall_forall.
    - intros id s r s' _. apply appended_to_message.
    - done. }
  unfold appended_to in Hs. split; [exact Hs |]. split; [|by intros Hnil; rewrite Hs, Hnil].
  rewrite Hs. clear Hs.
  induction (saved_ids (log (process_inbox gmail cfg fuel w f).2)) as [|i l IH].
  - simpl. by rewrite app_empty_r.
  - rewrite reverse_cons, fmap_app. simpl foldr. unfold save_inbox_id at 1.
    cbn [default]. rewrite IH. clear IH.
    change ((λ i0, i0 ++ nl) <$> [i]) with [i ++ nl].
    by rewrite concat_snoc, app_assoc'.
Qed.

(** ** Kept messages are never archived *)

Lemma archives_classified_message {W : Type} (gmail : remote W) (cfg : config)
    id (s : state W) r s' :
  archives_classified s → process_message gmail cfg id s = (r, s') →
  archives_classified s'.
Proof.
  intros Hs Hrun.
  message_cases Hrun; unfold archives_classified in *; try done;
    intros j; simpl; rewrite ?elem_of_cons; naive_solver.
Qed.

Lemma archives_classified_run {W : Type} (gmail : remote W) (cfg : config)
    (fuel : nat) (w : W) (f : file) :
  archives_classified (process_inbox gmail cfg fuel w f).2.
Proof.
  apply (while_true_inv gmail cfg archives_classified (λ _, True)).
  - intros e s He Hs. by destruct e.
  - done.
  - intros t s r w0 Hs _. split; [done |]. intros resp _. by apply Forall_forall.
  - intros id s r s' _. apply archives_classified_message.
  - by intros i Hi%elem_of_nil.
Qed.

(** X6.  A run never asks to archive a message whose identifier
    [load_inbox_saved_ids] finds in the store when the run starts.  When
    the store file is absent, empty or ends with a line feed, no later
    run does either. *)
Theorem stored_ids_are_never_archived {W : Type}
    (gmail : remote W) (cfg : config) (fuel : nat) (w : W)
    (f : file) (id : string) :
  id ∈ load_inbox_saved_ids f →
  (id ∉ modified_ids (log (process_inbox gmail cfg fuel w f).2))
  ∧ (well_terminated f = true →
     ∀ f', later_store (W:=W) f f' →
     ∀ (gmail' : remote W) (cfg' : config) (fuel' : nat) (w' : W),
       id ∉ modified_ids (log (process_inbox gmail' cfg' fuel' w' f').2)).
Proof.
  intros Hid.
  assert (Hrun : ∀ (g : remote W) c n (w0 : W) f0,
            id ∈ load_inbox_saved_ids f0 →
            id ∉ modified_ids (log (process_inbox g c n w0 f0).2)).
  { intros g c n w0 f0 Hin Hmod.
    apply (archives_classified_run g c n w0 f0) in Hmod.
    destruct (skips_while g c (load_inbox_saved_ids f0) n (initial_state w0 f0))
      as [_ Hlog].
    - split; [done |]. intros i _. simpl. split; apply not_elem_of_nil.
    - by destruct (Hlog id Hin). }
  split; [by apply Hrun |].
  intros Ht f' Hlater g c n w0. apply Hrun.
  destruct (later_store_keeps f f' Ht Hlater) as [_ Hsub]. by apply Hsub.
Qed.

(** The store holds B, for which the model would answer [[ARCHIVE]]. *)
Lemma stored_ids_are_never_archived_witness :
  "B" ∉ modified_ids (log (process_inbox (mailbox mails model) Demo.cfg 3
                             ["A"; "B"] (Some ("B" ++ nl))).2).
Proof.
  refine (proj1 (stored_ids_are_never_archived (mailbox mails model) Demo.cfg 3
                   ["A"; "B"] (Some ("B" ++ nl)) "B" _)).
  by_evaluation.
Defined.

(** ** What [classify_email_with_gemini] can return *)

(** X8.  Whatever the examples file and the model are,
    [classify_email_with_gemini] either returns [None], ["[ARCHIVE]"] or
    ["[INBOX]"], or raises while it builds the prompt.  It raises exactly
    when the key is set and the examples file is not readable, with the
    same exception for every message, before any model call and without
    changing anything.  It makes at most one model call, asks for no
    archive, and changes neither the store file, nor the in-memory set,
    nor a counter. *)
Theorem classify_contract {W : Type} (gmail : remote W) (cfg : config)
    (email : email_data) (s : state W) :
  ∃ r s',
    classify_email_with_gemini gmail cfg email s = (r, s')
    ∧ match r with
      | Ok decision =>
          decision ∈ [None; Some "[ARCHIVE]"; Some "[INBOX]"]
          ∧ (verdict_of decision = UNKNOWN ↔ decision = None)
          ∧ (truthy (GEMINI_API_KEY cfg) = false
             ∨ readable (classified_examples cfg) = true)
      | Raise e =>
          truthy (GEMINI_API_KEY cfg) = true
          ∧ readable (classified_examples cfg) = false
          ∧ s' = s
          ∧ ∀ email', build_prompt email' (classified_examples cfg) = Raise e
      end
    ∧ same_locals s s'
    ∧ (List.length (prompts_sent (log s'))
       ≤ S (List.length (prompts_sent (log s))))%nat
    ∧ modified_ids (log s') = modified_ids (log s).
Proof.
  destruct (classify_email_with_gemini gmail cfg email s) as [r s'] eqn:Hrun.
  pose proof (classify_frame gmail cfg email s r s' Hrun)
    as (Hraise & Hsame & Hmod & _).
  exists r, s'. split; [done |].
  split; [|split; [exact Hsame |split; [|exact Hmod]]].
  - destruct r as [decision|e].
    + assert (decision ∈ [None; Some "[ARCHIVE]"; Some "[INBOX]"]) as Hrange.
      { destruct decision as [d|]; [|apply list_elem_of_here].
        apply classify_decision in Hrun. unfold accepted in Hrun.
        rewrite !elem_of_cons, elem_of_nil in Hrun. rewrite !elem_of_cons.
        naive_solver. }
      split; [exact Hrange |]. split.
      * rewrite !elem_of_cons, elem_of_nil in Hrange.
        destruct Hrange as [-> | [-> | [-> | []]]]; by split.
      * clear -Hrun. classify_cases Hrun; [right | right | right | by left];
          apply (build_prompt_readable email); eauto.
    + destruct (Hraise e eq_refl) as (Hkey & Hprompt & ->).
      split; [done |]. split; [|split; [done |]].
      * destruct (readable (classified_examples cfg)) eqn:Hr; [|done].
        apply (build_prompt_readable email) in Hr as [p Hp]. congruence.
      * intros email'. by apply (build_prompt_failure email).
  - clear -Hrun. classify_cases Hrun; simpl; lia.
Qed.

(** ** More on the store file *)

Section StripFacts.

Implicit Types (s : string) (c : ascii) (p : ascii → bool).

Lemma lstrip_first s : opt_test is_space (first_char (lstrip s)) = false.
Proof.
  induction s as [|c s IH]; [done |]. simpl.
  destruct (is_space c) eqn:Hc; [done |]. simpl. exact Hc.
Qed.

Lemma rstrip_last s : opt_test is_space (last_char (rstrip s)) = false.
Proof.
  induction s as [|c s IH]; [done |]. simpl.
  destruct (rstrip s) as [|d r] eqn:Hr.
  - destruct (is_space c) eqn:Hc; [done |]. simpl. exact Hc.
  - change (last_char (String c (String d r)))
      with (match last_char (String d r) with Some e => Some e | None => Some c end).
    destruct (last_char (String d r)) as [e|] eqn:Hl; [done |].
    by apply last_char_none in Hl.
Qed.

Lemma lstrip_last s :
  opt_test is_space (last_char s) = false →
  opt_test is_space (last_char (lstrip s)) = false.
Proof.
  induction s as [|c s IH]; [done |]. intros Hl. simpl.
  destruct (is_space c) eqn:Hc; [|done].
  apply IH. simpl in Hl. destruct (last_char s) as [e|]; [done |].
  simpl in Hl. congruence.
Qed.

Lemma strip_outer s : outer_space (strip s) = false.
Proof.
  unfold outer_space, strip. rewrite lstrip_first. simpl.
  apply lstrip_last, rstrip_last.
Qed.

Lemma all_chars_lstrip p s : all_chars p s = true → all_chars p (lstrip s) = true.
Proof.
  induction s as [|c s IH]; [done |]. simpl.
  intros [Hc Hs]%andb_true_iff. destruct (is_space c); [by apply IH |].
  simpl. by rewrite Hc, Hs.
Qed.

Lemma all_chars_rstrip p s : all_chars p s = true → all_chars p (rstrip s) = true.
Proof.
  induction s as [|c s IH]; [done |]. simpl.
  intros [Hc Hs]%andb_true_iff. specialize (IH Hs).
  destruct (rstrip s) as [|d r].
  - destruct (is_space c); [done |]. simpl. by rewrite Hc.
  - simpl in *. by rewrite Hc, IH.
Qed.

Lemma strip_no_break s :
  has_line_break s = false → has_line_break (strip s) = false.
Proof.
  unfold has_line_break, strip. rewrite !negb_false_iff.
  intros H. by apply all_chars_lstrip, all_chars_rstrip.
Qed.

Lemma decode_newlines_no_cr b s :
  all_chars (λ c, negb (is_cr c)) (decode_newlines b s) = true.
Proof.
  revert b. induction s as [|c s IH]; intros b; [done |]. simpl.
  destruct (is_cr c) eqn:Hcr; [simpl; apply IH |].
  destruct (is_lf c) eqn:Hlf.
  - destruct b; [apply IH | simpl; apply IH].
  - simpl. rewrite Hcr. simpl. apply IH.
Qed.

(** A line is a text without line terminator, followed by LF or not. *)
Lemma split_lines_shape s l :
  all_chars (λ c, negb (is_cr c)) s = true →
  l ∈ split_lines s →
  ∃ b, (l = b ++ nl ∨ l = b) ∧ has_line_break b = false.
Proof.
  revert l. induction s as [|c s IH]; intros l Hcr Hl; [by apply elem_of_nil in Hl |].
  simpl in Hcr. apply andb_true_iff in Hcr as [Hc Hs]. simpl in Hl.
  destruct (is_lf c) eqn:Hlf.
  - apply elem_of_cons in Hl as [-> | Hl]; [|by apply IH].
    exists "". split; [|done]. left.
    unfold is_lf in Hlf. apply Ascii.eqb_eq in Hlf as ->. done.
  - assert (∀ b, has_line_break b = false → has_line_break (String c b) = false)
      as Hext.
    { unfold has_line_break, is_line_break. intros b Hb. simpl.
      rewrite Hlf. apply negb_true_iff in Hc. rewrite Hc. simpl.
      exact Hb. }
    destruct (split_lines s) as [|l0 ls] eqn:Hsplit.
    + apply list_elem_of_singleton in Hl as ->.
      exists (String c ""). split; [by right |]. by apply Hext.
    + apply elem_of_cons in Hl as [-> | Hl].
      * destruct (IH l0) as (b & Hb & Hnb); [done | apply list_elem_of_here |].
        exists (String c b). split; [|by apply Hext].
        destruct Hb as [-> | ->]; [by left | by right].
      * apply IH; [done |]. by apply list_elem_of_further.
Qed.

End StripFacts.

(** X9.  Every identifier that [load_inbox_saved_ids] returns is free of
    surrounding whitespace and of line terminators, whatever the file
    holds.  A listed identifier that is not is therefore never found in
    the store at the start of a run. *)
Theorem loaded_ids_are_plain (f : file) (id : string) :
  id ∈ load_inbox_saved_ids f → plain_id id = true.
Proof.
  unfold load_inbox_saved_ids. rewrite elem_of_list_to_set.
  destruct f as [raw|]; [|by intros ?%elem_of_nil].
  simpl. intros (l & -> & Hl)%list_elem_of_fmap.
  apply plain_id_spec. split; [apply strip_outer |].
  destruct (split_lines_shape _ l (decode_newlines_no_cr false raw) Hl)
    as (b & [-> | ->] & Hb).
  - unfold strip, nl. rewrite rstrip_snoc_space by apply is_space_LF.
    by apply strip_no_break.
  - by apply strip_no_break.
Qed.

Lemma loaded_ids_are_plain_witness : plain_id "18c2f" = true.
Proof.
  apply (loaded_ids_are_plain (Some (" 17a0b " ++ nl ++ "18c2f")) "18c2f").
  by_evaluation.
Defined.

(** X10.  After any append the file ends with a line feed, so from the
    second append on the round trip is exact whatever the file was
    before: appending a plain identifier adds exactly that identifier to
    what is loaded. *)
Theorem second_append_is_exact (f : file) (a b : string) :
  plain_id b = true →
  load_inbox_saved_ids (save_inbox_id b (save_inbox_id a f))
  = load_inbox_saved_ids (save_inbox_id a f) ∪ {[ b ]}.
Proof.
  intros Hb. apply load_save_plain; [|done]. apply save_terminated.
Qed.

Lemma second_append_is_exact_witness :
  load_inbox_saved_ids (save_inbox_id "def" (save_inbox_id "x y" (Some "abc")))
  = load_inbox_saved_ids (save_inbox_id "x y" (Some "abc")) ∪ {[ "def" ]}.
Proof. apply second_append_is_exact. reflexivity. Defined.

(** X11.  A store written by [save_inbox_id] alone, starting without
    file, reads back as it was written: for plain identifiers the lines
    of the file are the identifiers in the order of the calls, repeated
    ones included, and the loaded set is the set of these identifiers. *)
Theorem written_store_reads_back (ids : list string) :
  Forall (λ i, plain_id i = true) ids →
  stored_ids (written ids) = ids
  ∧ load_inbox_saved_ids (written ids) = list_to_set ids
  ∧ well_terminated (written ids) = true.
Proof.
  intros Hplain.
  assert (stored_ids (written ids) = ids ∧ well_terminated (written ids) = true)
    as [Hids Ht].
  { induction ids as [|i ids IH] using rev_ind; [done |].
    apply Forall_app in Hplain as [Hplain [Hi _]%Forall_cons].
    destruct (IH Hplain) as [Hids Ht].
    unfold written. rewrite foldl_app. cbn [foldl]. fold (written ids).
    split; [|apply save_terminated].
    by rewrite stored_ids_save_plain, Hids. }
  unfold load_inbox_saved_ids. by rewrite Hids.
Qed.

Lemma written_store_reads_back_witness :
  stored_ids (written ["18c2f"; "17a0b"; "18c2f"]) = ["18c2f"; "17a0b"; "18c2f"]
  ∧ load_inbox_saved_ids (written ["18c2f"; "17a0b"; "18c2f"])
    = list_to_set ["18c2f"; "17a0b"; "18c2f"]
  ∧ well_terminated (written ["18c2f"; "17a0b"; "18c2f"]) = true.
Proof.
  apply written_store_reads_back. by_evaluation.
Defined.

(* ===================================================================== *)
(** * Properties of [archive_old_emails.py] *)
(* ===================================================================== *)

Import Archiver.

Ltac bulk_simpl :=
  cbn [b_world b_page_token b_archived_count b_processed_count b_log
       b_add_log b_with_world b_with_page_token b_count_processed
       b_count_archived] in *.

Section Bulk.

Context {W : Type}.
Variable service : search_service W.

Lemma queue_cons i ids (s : bulk_state W) :
  queue (i :: ids) s = queue ids (b_count_processed (b_add_log (Queued i) s)).
Proof. reflexivity. Qed.

Lemma archive_batch_cons i ids (s : bulk_state W) :
  archive_batch service (i :: ids) s
  = archive_batch service ids (archive_one service s i).
Proof. reflexivity. Qed.

Lemma queue_spec ids (s : bulk_state W) :
  let s' := queue ids s in
  b_processed_count s' = (b_processed_count s + Z.of_nat (List.length ids))%Z
  ∧ b_archived_count s' = b_archived_count s
  ∧ b_world s' = b_world s
  ∧ attempted (b_log s') = attempted (b_log s)
  ∧ returned (b_log s') = returned (b_log s)
  ∧ failed (b_log s') = failed (b_log s)
  ∧ found (b_log s') = found (b_log s).
Proof.
  revert s. induction ids as [|i ids IH]; intros s.
  - cbv zeta. simpl. repeat split; try done. lia.
  - cbv zeta. rewrite queue_cons.
    destruct (IH (b_count_processed (b_add_log (Queued i) s)))
      as (Hp & Ha & Hw & H1 & H2 & H3 & H4).
    rewrite Hp, Ha, Hw, H1, H2, H3, H4. bulk_simpl.
    repeat split; try done. simpl List.length. lia.
Qed.

Lemma archive_one_spec (s : bulk_state W) i :
  let s' := archive_one service s i in
  attempted (b_log s') = i :: attempted (b_log s)
  ∧ found (b_log s') = found (b_log s)
  ∧ b_processed_count s' = b_processed_count s
  ∧ b_page_token s' = b_page_token s
  ∧ ((returned (b_log s') = i :: returned (b_log s)
      ∧ failed (b_log s') = failed (b_log s)
      ∧ b_archived_count s' = (b_archived_count s + 1)%Z
      ∧ ∃ w, messages_modify (labels service) i (b_world s) = (Ok tt, w))
     ∨ (returned (b_log s') = returned (b_log s)
        ∧ failed (b_log s') = i :: failed (b_log s)
        ∧ b_archived_count s' = b_archived_count s
        ∧ ∃ e w, messages_modify (labels service) i (b_world s) = (Raise e, w))).
Proof.
  cbv zeta. unfold archive_one.
  destruct (messages_modify (labels service) i (b_world s)) as [[[]|e] w];
    repeat split; try done; [left | right]; repeat split; eauto.
Qed.

End Bulk.

(** X12.  A page is archived message by message and no failure stops it:
    every identifier of the page gets exactly one archive call, in the
    order of the page, whether or not earlier calls raised; each call
    either returns, and is counted as archived, or raises, and is logged
    and dropped. *)
Theorem batch_attempts_every_id {W : Type} (service : search_service W)
    (ids : list string) (s : bulk_state W) :
  let s' := archive_batch service ids s in
  attempted (b_log s') = (reverse ids ++ attempted (b_log s))%list
  ∧ (Ledger.count (returned (b_log s')) + Ledger.count (failed (b_log s'))
     = Ledger.count (returned (b_log s)) + Ledger.count (failed (b_log s))
       + Ledger.count ids)%Z
  ∧ (b_archived_count s' - Ledger.count (returned (b_log s'))
     = b_archived_count s - Ledger.count (returned (b_log s)))%Z
  ∧ b_processed_count s' = b_processed_count s
  ∧ found (b_log s') = found (b_log s).
Proof.
  revert s. induction ids as [|i ids IH]; intros s.
  - cbv zeta. simpl. unfold Ledger.count. simpl. repeat split; try done; lia.
  - cbv zeta. rewrite archive_batch_cons.
    destruct (IH (archive_one service s i)) as (Hat & Hc & Ha & Hp & Hf).
    destruct (archive_one_spec service s i) as (Hat1 & Hf1 & Hp1 & _ & Hcase).
    rewrite Hat, Hat1, Hp, Hp1, Hf, Hf1, reverse_cons, <- (assoc_L (++)).
    split; [done |]. unfold Ledger.count in *. simpl List.length.
    destruct Hcase as [(Hr & Hfl & Hac & _) | (Hr & Hfl & Hac & _)];
      rewrite Hr, Hfl in Hc; rewrite Hr, Hac in Ha; simpl List.length in *;
      repeat split; try done; lia.
Qed.

(** The archive call fails for b and d; a, c and e are archived all the
    same. *)
Example flaky_batch :
  let s := archive_batch (flaky ["b"; "d"]) ["a"; "b"; "c"; "d"; "e"]
             (bulk_initial ["a"; "b"; "c"; "d"; "e"]) in
  attempted (b_log s) = ["e"; "d"; "c"; "b"; "a"]
  ∧ returned (b_log s) = ["e"; "c"; "a"]
  ∧ failed (b_log s) = ["d"; "b"]
  ∧ b_archived_count s = 3%Z
  ∧ b_world s = ["b"; "d"].
Proof. by vm_compute. Qed.

Lemma settled_iteration {W : Type} (service : search_service W) q
    (s : bulk_state W) :
  settled s → settled (bulk_iteration service q s).2.
Proof.
  intros (Hat & Hp & Ha & Hc). unfold bulk_iteration.
  destruct (messages_search service q (b_page_token s) (b_world s))
    as [[results|e] w]; [|done].
  cbv zeta. destruct (default [] (messages results)) as [|i ids]; [done |].
  set (s1 := b_add_log (BatchFound (i :: ids)) _).
  destruct (queue_spec (i :: ids) s1) as (Hp2 & Ha2 & _ & H1 & H2 & H3 & H4).
  destruct (batch_attempts_every_id service (i :: ids) (queue (i :: ids) s1))
    as (Hat3 & Hc3 & Ha3 & Hp3 & Hf3).
  assert (attempted (b_log s1) = attempted (b_log s)
          ∧ returned (b_log s1) = returned (b_log s)
          ∧ failed (b_log s1) = failed (b_log s)
          ∧ found (b_log s1) = (reverse (i :: ids) ++ found (b_log s))%list
          ∧ b_processed_count s1 = b_processed_count s
          ∧ b_archived_count s1 = b_archived_count s)
    as (E1 & E2 & E3 & E4 & E5 & E6) by done.
  clearbody s1.
  assert (settled (archive_batch service (i :: ids) (queue (i :: ids) s1)))
    as Hs3.
  { rewrite Ha2, H2, E6, E2, Ha in Ha3.
    rewrite H2, H3, E2, E3 in Hc3. rewrite Hat in Hc.
    unfold settled.
    rewrite Hat3, Hf3, Hp3, Hp2, H1, H4, E1, E4, E5, Hat, Hp.
    unfold Ledger.count in *.
    rewrite !length_app, !length_reverse in *.
    repeat split; try done; lia. }
  by destruct (truthy (nextPageToken results)).
Qed.

(** X13.  At the end of a run of [archive_emails_before_date], and at
    every turn of the loop before, every identifier the listing returned
    was counted as processed and was given exactly one archive call, in
    the order of the listing; the archived counter is the number of calls
    that returned, and together with the failed ones they make up the
    processed messages. *)
Theorem bulk_run_accounts {W : Type} (service : search_service W)
    (fuel : nat) (year month day : Z) (w : W) :
  let s := (archive_emails_before_date service fuel year month day w).2 in
  attempted (b_log s) = found (b_log s)
  ∧ b_processed_count s = Ledger.count (found (b_log s))
  ∧ b_archived_count s = Ledger.count (returned (b_log s))
  ∧ (b_archived_count s + Ledger.count (failed (b_log s))
     = b_processed_count s)%Z
  ∧ (0 ≤ b_archived_count s ≤ b_processed_count s)%Z.
Proof.
  cbv zeta. unfold archive_emails_before_date.
  assert (∀ n (s : bulk_state W), settled s →
            settled (bulk_loop service n (query year month day) s).2) as Hloop.
  { induction n as [|n IH]; intros s Hs; [done |]. simpl.
    pose proof (settled_iteration service (query year month day) s Hs) as Hit.
    destruct (bulk_iteration service (query year month day) s) as [[] s'];
      [done | by apply IH]. }
  destruct (Hloop fuel (bulk_initial w)) as (Hat & Hp & Ha & Hc); [done |].
  pose proof (Nat2Z.is_nonneg (List.length (failed
    (b_log (bulk_loop service fuel (query year month day) (bulk_initial w)).2)))).
  pose proof (Nat2Z.is_nonneg (List.length (returned
    (b_log (bulk_loop service fuel (query year month day) (bulk_initial w)).2)))).
  rewrite Hat in Hc. unfold Ledger.count in *. repeat split; try done; lia.
Qed.

(** The query of [main] for the year 2025. *)
Example query_2025 : query 2025 5 1 = "in:inbox before:2025/05/01".
Proof. by vm_compute. Qed.

(* ===================================================================== *)
(** * Properties of [training_data.py] *)
(* ===================================================================== *)

Import Corpus Trainer Cases2.

Section PrefixFacts.

Implicit Types (s t : string) (n : nat).

Lemma length_app_string s t :
  String.length (s ++ t) = (String.length s + String.length t)%nat.
Proof. induction s as [|c s IH]; simpl; [done | by rewrite IH]. Qed.

Lemma prefix_of_length n s :
  String.length (prefix_of n s) = Nat.min n (String.length s).
Proof.
  unfold prefix_of. revert s. induction n as [|n IH]; intros s.
  - by destruct s.
  - destruct s as [|c s]; [done |]. simpl. by rewrite IH.
Qed.

Lemma prefix_of_split n s : ∃ t, s = prefix_of n s ++ t.
Proof.
  unfold prefix_of. revert s. induction n as [|n IH]; intros s.
  - exists s. by destruct s.
  - destruct s as [|c s]; [by exists "" |].
    destruct (IH s) as [t Ht]. exists t. simpl. by rewrite <- Ht.
Qed.

Lemma prefix_of_all n s : (String.length s ≤ n)%nat → prefix_of n s = s.
Proof.
  unfold prefix_of. revert s. induction n as [|n IH]; intros s Hs.
  - destruct s; [done | simpl in Hs; lia].
  - destruct s as [|c s]; [done |]. simpl in *. rewrite IH; [done | lia].
Qed.

End PrefixFacts.

(** X15.  The body that [display_email] shows never exceeds 200
    characters: a body of at most 200 characters is shown as it is, a
    longer one as its first 197 characters followed by three dots. *)
Theorem preview_is_bounded (body : string) :
  (String.length (body_preview body) ≤ 200)%nat
  ∧ ((String.length body ≤ 200)%nat → body_preview body = body)
  ∧ ((200 < String.length body)%nat →
     String.length (body_preview body) = 200%nat
     ∧ ∃ t, body = prefix_of 197 body ++ t
            ∧ body_preview body = prefix_of 197 body ++ "...").
Proof.
  unfold body_preview.
  destruct (Nat.ltb_spec 200 (String.length body)) as [Hlong | Hshort].
  - assert (String.length (prefix_of 197 body ++ "...") = 200%nat) as Hlen.
    { rewrite length_app_string, prefix_of_length.
      change (String.length "...") with 3%nat. lia. }
    split; [lia |]. split; [lia |]. intros _. split; [done |].
    destruct (prefix_of_split 197 body) as [t Ht]. by exists t.
  - split; [done |]. split; [done | lia].
Qed.

(** ** The questions of a session *)

Lemma ask_spec_bounded n (inputs : list string) reason a rest :
  (List.length inputs ≤ n)%nat →
  ask inputs = Some (reason, a, rest) →
  (a = "a" ∨ a = "i")
  ∧ ∃ rejected answer,
      inputs = (rejected ++ reason :: answer :: rest)%list
      ∧ lower (strip answer) = a
      ∧ Nat.Even (List.length rejected).
Proof.
  revert inputs. induction n as [|n IH]; intros inputs Hn Hask.
  { destruct inputs; [done | simpl in Hn; lia]. }
  destruct inputs as [|r0 [|a0 rest0]]; [done | done |].
  simpl in Hask. destruct (decide (lower (strip a0) ∈ ["a"; "i"])) as [Hin | Hout].
  - simplify_eq. split.
    + rewrite !elem_of_cons, elem_of_nil in Hin. tauto.
    + exists [], a0. split; [done |]. split; [done |]. by exists 0%nat.
  - destruct (IH rest0) as (Ha & rejected & answer & -> & Hans & [k Hk]);
      [simpl in Hn; lia | done |].
    split; [done |]. exists (r0 :: a0 :: rejected), answer.
    split; [done |]. split; [done |]. exists (S k). simpl. lia.
Qed.



(** ** What a session adds to the examples *)

(** An example as a session writes it. *)
Lemma label_email_record email reason a :
  a = "a" ∨ a = "i" →
  let record := data_to_save (label_email email reason a).1 in
  (ex_action record = "archive" ∨ ex_action record = "inbox")
  ∧ "[" ++ upper (ex_action record) ++ "]" ∈ accepted
  ∧ (String.length (ex_body_snippet record) ≤ 100)%nat
  ∧ ex_subject record = fe_subject email
  ∧ ex_reason record = reason.
Proof.
  intros Ha. cbv zeta. unfold label_email, data_to_save. cbn [fst].
  cbn [ex_action ex_body_snippet ex_subject ex_reason action original_body
       original_subject Trainer.reason].
  rewrite prefix_of_length.
  destruct Ha as [-> | ->]; simpl String.eqb; cbv iota;
    (split; [auto |]); (split; [by_evaluation |]); repeat split; lia.
Qed.

Lemma label_all_cons email emails (s : session) :
  label_all (email :: emails) s =
  match ask (unread_lines s) with
  | None => {| history := history s; corpus := corpus s;
               notes := notes s; unread_lines := []; failure := failure s |}
  | Some (reason, a, rest) =>
      let record := data_to_save (label_email email reason a).1 in
      match history s with
      | JList entries =>
          label_all emails
            {| history := JList (entries ++ [entry_of record]);
               corpus := Holding (JList (entries ++ [entry_of record]));
               notes := (label_email email reason a).2 :: notes s;
               unread_lines := rest; failure := failure s |}
      | _ => {| history := history s; corpus := corpus s;
                notes := notes s; unread_lines := rest;
                failure := Some "AttributeError" |}
      end
  end.
Proof.
  simpl. destruct (ask (unread_lines s)) as [[[reason a] rest]|]; [|done].
  destruct (label_email email reason a). by destruct (history s).
Qed.

Lemma extended_nil d : extended d [] = d.
Proof. destruct d; simpl; [|done..]. by rewrite (right_id_L [] (++)%list). Qed.

Lemma label_all_spec emails (s : session) :
  ∃ added new_notes,
    history (label_all emails s) = extended (history s) added
    ∧ notes (label_all emails s) = (new_notes ++ notes s)%list
    ∧ List.length new_notes = List.length added
    ∧ (List.length added ≤ List.length emails)%nat
    ∧ (2 * List.length added + List.length (unread_lines (label_all emails s))
       ≤ List.length (unread_lines s))%nat
    ∧ Forall (λ r, (ex_action r = "archive" ∨ ex_action r = "inbox")
                   ∧ "[" ++ upper (ex_action r) ++ "]" ∈ accepted
                   ∧ (String.length (ex_body_snippet r) ≤ 100)%nat) added
    ∧ (added = [] → corpus (label_all emails s) = corpus s)
    ∧ (added ≠ [] →
       corpus (label_all emails s) = Holding (history (label_all emails s)))
    ∧ (is_list (history s) = false → added = [])
    ∧ (failure (label_all emails s) = failure s
       ∨ is_list (history s) = false).
Proof.
  revert s. induction emails as [|email emails IH]; intros s.
  { exists [], []. simpl. rewrite extended_nil.
    split_and!; first [done | lia | by left]. }
  rewrite label_all_cons.
  destruct (ask (unread_lines s)) as [[[reason a] rest]|] eqn:Hask.
  2:{ exists [], []. simpl. rewrite extended_nil.
      split_and!; first [done | simpl; lia | by left]. }
  destruct (ask_spec_bounded _ _ _ _ _ (le_n _) Hask)
    as (Ha & rejected & answer & Hin & _ & _).
  destruct (label_email_record email reason a Ha) as (Hact & Hacc & Hlen & _).
  cbv zeta.
  set (record := data_to_save (label_email email reason a).1) in *.
  set (note := (label_email email reason a).2).
  destruct (history s) as [entries| | |] eqn:Hhist.
  2,3,4: exists [], []; simpl; rewrite Hin, length_app; simpl;
         split_and!; first [done | lia | by right].
  set (s1 := {| history := _; corpus := _; notes := _; unread_lines := _;
                failure := _ |}).
  destruct (IH s1) as (added & new_notes & Hh & Hn & Hnl & Hle & Hlines & Hall
                       & Hnone & Hsome & _ & Hfail).
  exists (record :: added), (new_notes ++ [note])%list.
  rewrite Hh, Hn. subst s1.
  cbn [history notes unread_lines corpus failure extended is_list] in *.
  rewrite fmap_cons, <- !(assoc_L (++)%list). split_and!.
  - done.
  - done.
  - rewrite length_app. simpl. lia.
  - simpl. lia.
  - rewrite Hin, length_app. simpl. lia.
  - by apply Forall_cons.
  - done.
  - intros _. destruct added as [|r added].
    + by rewrite Hnone.
    + by rewrite Hsome, Hh, <- !(assoc_L (++)%list).
  - done.
  - destruct Hfail as [? | ?]; [by left | done].
Qed.


(** Two mock emails, a rejected round, then two answers. *)
Example session_of_two :
  let s := label_session (take 2 mock_emails) Missing
             ["?"; "what"; "update from work"; "I"; "newsletter"; " a "] in
  history s
  = JList [ entry_of {| ex_subject := "Test Email 1: Important Update";
                        ex_sender := "test1@example.com";
                        ex_body_snippet := "This is the body of test email 1. It contains important information.";
                        ex_reason := "update from work";
                        ex_action := "inbox" |};
            entry_of {| ex_subject := "Test Email 2: Your Weekly Newsletter";
                        ex_sender := "newsletter@example.com";
                        ex_body_snippet := "Hello! Here is your weekly newsletter with all the latest updates and news articles.";
                        ex_reason := "newsletter";
                        ex_action := "archive" |} ]
  ∧ notes s = [MockWouldArchive "mock_id_2"; KeptInInbox]
  ∧ corpus s = Holding (history s)
  ∧ unread_lines s = []
  ∧ failure s = None.
Proof. by vm_compute. Qed.

(** A file that holds an object, not a list: the first answer ends the
    program and the file stays as it was. *)
Example session_on_an_object :
  let f := Holding (JDict ["subject"; "action"]) in
  let s := label_session (take 2 mock_emails) f
             ["update from work"; "i"; "newsletter"; "a"] in
  failure s = Some "AttributeError"
  ∧ corpus s = f
  ∧ notes s = []
  ∧ unread_lines s = ["newsletter"; "a"].
Proof. by vm_compute. Qed.

(** ** What a session writes, the classifier can read *)

Lemma usable_entry_of (r : example) : usable (entry_of r) = true.
Proof. by vm_compute. Qed.

Lemma readable_extended d added :
  readable d = true → readable (extended d added) = true.
Proof.
  destruct d as [entries| | |]; simpl; try done.
  rewrite forallb_app. intros ->. simpl.
  induction added as [|r added IH]; [done |].
  rewrite fmap_cons. cbn [forallb]. by rewrite usable_entry_of.
Qed.

(** X16.  What a session writes, [main.py] can read.  A record written
    by [save_classified_email] has the five keys and a string under
    [action]; so a session that finds no examples file, or a readable
    one, leaves a readable one, and [classify_email_with_gemini] of
    [main.py], started on that file, builds its prompt and returns for
    every message, whatever the services answer. *)
Theorem session_keeps_examples_readable (emails : list fetched_email)
    (f : corpus_file) (inputs : list string) (key : option string) :
  readable (Corpus.load_classified_emails f) = true →
  let s := label_session emails f inputs in
  let cfg := config_from key (corpus s) in
  readable (classified_examples cfg) = true
  ∧ (∀ email, ∃ prompt,
       build_prompt email (classified_examples cfg) = Ok prompt)
  ∧ ∀ (W : Type) (gmail : remote W) (email : email_data) (s0 : state W),
      ∃ decision s1,
        classify_email_with_gemini gmail cfg email s0 = (Ok decision, s1).
Proof.
  intros Hf. cbv zeta.
  assert (readable (classified_examples
            (config_from key (corpus (label_session emails f inputs)))) = true)
    as Hr.
  { unfold label_session.
    set (s0 := {| history := _; corpus := _; notes := _; unread_lines := _;
                  failure := _ |}).
    destruct (label_all_spec emails s0)
      as (added & _ & Hh & _ & _ & _ & _ & _ & Hnone & Hsome & _).
    unfold config_from. cbn [classified_examples].
    destruct added as [|r added].
    - by rewrite Hnone.
    - rewrite Hsome, Hh by done. subst s0. cbn [history Corpus.load_classified_emails].
      apply readable_extended. by destruct f. }
  split; [exact Hr |]. split.
  - intros email. by apply build_prompt_readable.
  - intros W gmail email s0.
    destruct (classify_email_with_gemini gmail _ email s0) as [r s1] eqn:Hrun.
    destruct (classify_returns gmail _ email s0 r s1 Hrun) as [decision ->].
    + right. by apply build_prompt_readable.
    + by exists decision, s1.
Qed.

(** Without examples file, after the session of two answers. *)
Lemma session_keeps_examples_readable_witness :
  let s := label_session (take 2 mock_emails) Missing
             ["update from work"; "i"; "newsletter"; "a"] in
  readable (classified_examples (config_from (Some "key") (corpus s))) = true.
Proof.
  exact (proj1 (session_keeps_examples_readable (take 2 mock_emails) Missing
                  ["update from work"; "i"; "newsletter"; "a"] (Some "key")
                  eq_refl)).
Defined.

(** ** Fetching the emails to label *)

Lemma fetch_each_ids {W : Type} (service : unread_service W) ids (w : W)
    emails w' :
  fetch_each service ids w = (Ok emails, w') → fe_id <$> emails = ids.
Proof.
  revert w emails. induction ids as [|i ids IH]; intros w emails.
  - simpl. by intros [= <- <-].
  - simpl. destruct (messages_get (reader service) i w) as [[msg|e] w1]; [|done].
    destruct (fetch_each service ids w1) as [[rest|e] w2] eqn:Hrest; [|done].
    intros [= <- <-]. by rewrite fmap_cons, (IH _ _ Hrest).
Qed.

Lemma fetch_each_failure {W : Type} (service : unread_service W)
    before i after (w : W) :
  (∀ w0, ∃ e w1, messages_get (reader service) i w0 = (Raise e, w1)) →
  ∃ e w', fetch_each service (before ++ i :: after) w = (Raise e, w').
Proof.
  intros Hfail. revert w. induction before as [|j before IH]; intros w.
  - simpl. destruct (Hfail w) as (e & w1 & ->). eauto.
  - simpl. destruct (messages_get (reader service) j w) as [[msg|e] w1]; [|eauto].
    destruct (IH w1) as (e & w2 & ->). eauto.
Qed.

(** X19.  [fetch_emails] returns all or nothing: when it returns any
    email, the listing call returned, every listed message was fetched,
    and the emails are those of the listing, one per identifier and in
    its order.  A message whose fetch raises makes the result empty,
    whatever was fetched before it. *)
Theorem fetch_is_all_or_nothing {W : Type} (service : unread_service W)
    (count : nat) (w : W) :
  (∀ emails w', fetch_emails (Some service) count w = (emails, w') →
     emails ≠ [] →
     ∃ results w1,
       messages_unread service count w = (Ok results, w1)
       ∧ fetch_each service (default [] (messages results)) w1 = (Ok emails, w')
       ∧ fe_id <$> emails = default [] (messages results))
  ∧ (∀ results w1 before i after,
       messages_unread service count w = (Ok results, w1) →
       default [] (messages results) = (before ++ i :: after)%list →
       (∀ w0, ∃ e w2, messages_get (reader service) i w0 = (Raise e, w2)) →
       (fetch_emails (Some service) count w).1 = []).
Proof.
  split.
  - intros emails w'. unfold fetch_emails.
    destruct (messages_unread service count w) as [[results|e] w1];
      [|by intros [= <- <-]].
    destruct (fetch_each service _ w1) as [[fetched|e] w2] eqn:Hfetch;
      [|by intros [= <- <-]].
    intros [= <- <-] _. exists results, w1. split; [done |]. split; [done |].
    by eapply fetch_each_ids.
  - intros results w1 before i after Hlist Hids Hfail. unfold fetch_emails.
    rewrite Hlist, Hids.
    by destruct (fetch_each_failure service before i after w1 Hfail)
      as (e & w2 & ->).
Qed.

(** A, X and B are unread and X cannot be fetched: nothing is returned,
    not even A. *)
Lemma fetch_is_all_or_nothing_witness :
  (fetch_emails (Some (unread_box mails)) 50 ["A"; "X"; "B"]).1 = [].
Proof.
  refine (proj2 (fetch_is_all_or_nothing (unread_box mails) 50 ["A"; "X"; "B"])
            (all_of ["A"; "X"; "B"]) ["A"; "X"; "B"] ["A"] "X" ["B"] _ _ _).
  - reflexivity.
  - reflexivity.
  - intros w0. by exists "404 Requested entity was not found.", w0.
Defined.

(** ** Header names *)

(** X20.  The two programs do not read headers alike.  [fetch_emails]
    compares header names as they are, so a message whose subject header
    is not spelled exactly [Subject] is shown and saved with the
    placeholder ["[No Subject]"]; [process_inbox] lower-cases the name
    first and classifies the same message with its real subject. *)
Theorem header_names_are_read_differently (msg_id : string) (msg : message)
    (before : list header) (h : header) (after : list header) :
  headers_of msg = (before ++ h :: after)%list →
  (∀ h', h' ∈ headers_of msg → name h' ≠ "Subject") →
  lower (name h) = "subject" →
  (∀ h', h' ∈ before → lower (name h') ≠ "subject") →
  fe_subject (read_email msg_id msg) = "[No Subject]"
  ∧ ed_subject (build_email_data msg_id msg) = value h.
Proof.
  intros Hhs Hexact Hlower Hfirst. unfold read_email, build_email_data.
  cbn [fe_subject ed_subject]. split.
  - clear -Hexact. induction (headers_of msg) as [|h0 hs IH]; [done |].
    simpl. destruct (String.eqb_spec (name h0) "Subject") as [Heq | _].
    + exfalso. eapply Hexact; [apply list_elem_of_here | done].
    + apply IH. intros h' Hin. apply Hexact. by apply list_elem_of_further.
  - rewrite Hhs. clear -Hlower Hfirst.
    induction before as [|h0 hs IH]; simpl.
    + by rewrite Hlower.
    + destruct (String.eqb_spec (lower (name h0)) "subject") as [Heq | _].
      * exfalso. eapply Hfirst; [apply list_elem_of_here | done].
      * apply IH. intros h' Hin. apply Hfirst. by apply list_elem_of_further.
Qed.

Lemma header_names_are_read_differently_witness :
  fe_subject (read_email "M" lower_case_mail) = "[No Subject]"
  ∧ ed_subject (build_email_data "M" lower_case_mail) = "Invoice 42".
Proof.
  refine (header_names_are_read_differently "M" lower_case_mail []
            {| name := "subject"; value := "Invoice 42" |}
            [ {| name := "From"; value := "billing@shop" |} ] _ _ _ _).
  - reflexivity.
  - intros h' Hin.
    change (headers_of lower_case_mail)
      with [ {| name := "subject"; value := "Invoice 42" |};
             {| name := "From"; value := "billing@shop" |} ] in Hin.
    rewrite !elem_of_cons, elem_of_nil in Hin.
    destruct Hin as [-> | [-> | []]]; done.
  - reflexivity.
  - intros h' Hin. by apply elem_of_nil in Hin.
Defined.
